(** * Structured Data Extractor: the flattening pipeline of [app.py]

    A shallow embedding of the core of [app.py] (normalisation of the
    extraction output, item classification, path flattening, the compact
    JSON of the summary, the per-URL orchestrator and the batch loop),
    followed by the properties proved about it.

    Conventions of the model.
    - A Python [str] is a [string]; each character stands for one code
      point below 256.
    - The values handled by the program are the ones a JSON document
      decodes to: [None], booleans, integers, strings, lists and
      dictionaries with string keys.  Floating-point numbers are left out.
    - A [dict] is an association list in insertion order; Python keeps the
      keys of a dictionary pairwise distinct, which is the predicate
      [wf_value].
    - A function that mutates a list it receives ([flatten_item] and its
      [rows]) takes the list and returns the list after the call.
    - The HTTP fetch, the base-URL resolution and the extraction library are
      parameters of the orchestrator: functions that return or raise.
    - The limits of the interpreter (recursion depth, digits of an integer
      turned into text) are not modelled. *)

From Stdlib Require Import String Ascii List ZArith Lia Bool.
From Stdlib Require Import DecimalString DecimalZ DecimalNat DecimalPos DecimalFacts Decimal.
From Stdlib Require Import Permutation.
Import ListNotations.
Open Scope list_scope.
Open Scope string_scope.

(** ** Python values *)

#[warnings="-register-all"]
Inductive value : Type :=
| VNone : value
| VBool : bool -> value
| VInt : Z -> value
| VStr : string -> value
| VList : list value -> value
| VDict : list (string * value) -> value.

(** [isinstance(v, dict)], [isinstance(v, list)] *)
Definition is_dict (v : value) : bool :=
  match v with VDict _ => true | _ => false end.

Definition is_list (v : value) : bool :=
  match v with VList _ => true | _ => false end.

(** A scalar is anything that is neither a list nor a dictionary. *)
Definition is_scalar (v : value) : bool :=
  match v with VList _ | VDict _ => false | _ => true end.

(** Truth value of a string and of a value, as [bool(x)] computes it. *)
Definition str_truthy (s : string) : bool :=
  match s with EmptyString => false | String _ _ => true end.

Definition truthy (v : value) : bool :=
  match v with
  | VNone => false
  | VBool b => b
  | VInt z => negb (Z.eqb z 0)
  | VStr s => str_truthy s
  | VList l => match l with [] => false | _ :: _ => true end
  | VDict d => match d with [] => false | _ :: _ => true end
  end.

(** [a or b] *)
Definition py_or (a b : value) : value := if truthy a then a else b.

(** [d.get(k)]: the value stored under [k], [None] when the key is missing. *)
Fixpoint dict_lookup {A : Type} (d : list (string * A)) (k : string) : option A :=
  match d with
  | [] => None
  | (k', v) :: tl => if String.eqb k' k then Some v else dict_lookup tl k
  end.

Definition dict_get (d : list (string * value)) (k : string) : value :=
  match dict_lookup d k with Some v => v | None => VNone end.

(** [d[k] = v]: an existing key keeps its place, a new key goes last. *)
Fixpoint dict_set {A : Type} (d : list (string * A)) (k : string) (v : A)
  : list (string * A) :=
  match d with
  | [] => [(k, v)]
  | (k', v') :: tl =>
      if String.eqb k' k then (k', v) :: tl else (k', v') :: dict_set tl k v
  end.

(** ** [str] and [repr] *)

(** [str(i)] for an integer: decimal digits, a leading [-] when negative. *)
Definition str_int (z : Z) : string := NilZero.string_of_int (Z.to_int z).

Definition str_nat (n : nat) : string := str_int (Z.of_nat n).

(** The double quote and the backslash. *)
Definition dquote : ascii := "034"%char.
Definition backslash : ascii := "092"%char.

Definition hex_digit (n : N) : ascii :=
  match n with
  | 0 => "0" | 1 => "1" | 2 => "2" | 3 => "3" | 4 => "4" | 5 => "5"
  | 6 => "6" | 7 => "7" | 8 => "8" | 9 => "9" | 10 => "a" | 11 => "b"
  | 12 => "c" | 13 => "d" | 14 => "e" | _ => "f"
  end%N%char.

(** The escape [\xhh] of a character. *)
Definition hex_escape (c : ascii) : string :=
  let n := N_of_ascii c in
  String "\" (String "x" (String (hex_digit (N.div n 16))
                                 (String (hex_digit (N.modulo n 16)) ""))).

Fixpoint str_contains (c : ascii) (s : string) : bool :=
  match s with
  | EmptyString => false
  | String c' tl => Ascii.eqb c c' || str_contains c tl
  end.

(** The characters [repr] copies unchanged: printable ASCII and the printable
    part of Latin-1 (all but the C1 controls, U+00A0 and U+00AD). *)
Definition repr_printable (c : ascii) : bool :=
  let n := N_of_ascii c in
  ((32 <=? n) && (n <? 127) || (161 <=? n) && negb (n =? 173))%N.

Definition repr_char (quote c : ascii) : string :=
  if Ascii.eqb c quote || Ascii.eqb c "\" then String "\" (String c "")
  else if Ascii.eqb c "009" then "\t"
  else if Ascii.eqb c "010" then "\n"
  else if Ascii.eqb c "013" then "\r"
  else if repr_printable c then String c ""
  else hex_escape c.

Fixpoint repr_chars (quote : ascii) (s : string) : string :=
  match s with
  | EmptyString => EmptyString
  | String c tl => repr_char quote c ++ repr_chars quote tl
  end.

(** [repr(s)] of a string: single quotes, unless the string holds a single
    quote and no double quote. *)
Definition repr_str (s : string) : string :=
  let quote : ascii :=
    if str_contains "'" s && negb (str_contains dquote s) then dquote
    else "'"%char in
  String quote (repr_chars quote s ++ String quote "").

Fixpoint py_repr (v : value) : string :=
  match v with
  | VNone => "None"
  | VBool true => "True"
  | VBool false => "False"
  | VInt z => str_int z
  | VStr s => repr_str s
  | VList l => "[" ++ String.concat ", " (map py_repr l) ++ "]"
  | VDict d =>
      "{" ++ String.concat ", "
               (map (fun kv => repr_str (fst kv) ++ ": " ++ py_repr (snd kv)) d)
          ++ "}"
  end.

(** [str(v)]: a string is itself, every other value is its [repr]. *)
Definition py_str (v : value) : string :=
  match v with
  | VStr s => s
  | _ => py_repr v
  end.

(** ** [normalize_items] *)

Definition syntaxes : list string := ["json-ld"; "microdata"; "rdfa"].

Definition normalize_items (extracted : list (string * value))
  : list (string * list value) :=
  fold_left
    (fun out k =>
       let v := py_or (dict_get extracted k) (VList []) in
       let v := match v with VList l => l | _ => [v] end in
       dict_set out k v)
    syntaxes [].

(** ** [guess_item_type] *)

Definition guess_item_type (item : value) : string :=
  match item with
  | VDict d =>
      let t := py_or (dict_get d "@type") (dict_get d "type") in
      match t with
      | VList l => String.concat "," (map py_str l)
      | _ => if truthy t then py_str t else ""
      end
  | _ => ""
  end.

(** ** [flatten_item] *)

(** One fragment appended to [rows]: the dictionary
    [{"property": ..., "value": ...}]. *)
Record fragment : Type := mk_fragment {
  frag_property : string;
  frag_value : string
}.

Fixpoint flatten_item (prefix : string) (v : value) (rows : list fragment)
  {struct v} : list fragment :=
  match v with
  | VDict d =>
      (fix items (d : list (string * value)) (rows : list fragment) :=
         match d with
         | [] => rows
         | (k, v') :: tl =>
             items tl
               (flatten_item
                  (if str_truthy prefix then prefix ++ "." ++ k else k)
                  v' rows)
         end) d rows
  | VList l =>
      (fix elems (i : nat) (l : list value) (rows : list fragment) :=
         match l with
         | [] => rows
         | v' :: tl =>
             elems (S i) tl
               (flatten_item (prefix ++ "[" ++ str_nat i ++ "]") v' rows)
         end) 0%nat l rows
  | _ =>
      (rows ++ [ {| frag_property := prefix;
                    frag_value := match v with VNone => "" | _ => py_str v end |} ])%list
  end.

(** The two loops of [flatten_item], as functions of their own. *)
Fixpoint flatten_dict (prefix : string) (d : list (string * value))
  (rows : list fragment) : list fragment :=
  match d with
  | [] => rows
  | (k, v) :: tl =>
      flatten_dict prefix tl
        (flatten_item (if str_truthy prefix then prefix ++ "." ++ k else k)
                      v rows)
  end.

Fixpoint flatten_list (prefix : string) (i : nat) (l : list value)
  (rows : list fragment) : list fragment :=
  match l with
  | [] => rows
  | v :: tl =>
      flatten_list prefix (S i) tl
        (flatten_item (prefix ++ "[" ++ str_nat i ++ "]") v rows)
  end.

(** ** [safe_json]: [json.dumps] with [ensure_ascii=False] and the compact
    separators *)

Definition hex4 (c : ascii) : string :=
  let n := N_of_ascii c in
  String "0" (String "0" (String (hex_digit (N.div n 16))
                                 (String (hex_digit (N.modulo n 16)) ""))).

(** The replacement of one character inside a JSON string. *)
Definition json_escape_char (c : ascii) : string :=
  if Ascii.eqb c backslash then String backslash (String backslash "")
  else if Ascii.eqb c dquote then String backslash (String dquote "")
  else if Ascii.eqb c "008" then String backslash "b"
  else if Ascii.eqb c "012" then String backslash "f"
  else if Ascii.eqb c "010" then String backslash "n"
  else if Ascii.eqb c "013" then String backslash "r"
  else if Ascii.eqb c "009" then String backslash "t"
  else if (N_of_ascii c <? 32)%N then String backslash (String "u" (hex4 c))
  else String c "".

Fixpoint json_escape (s : string) : string :=
  match s with
  | EmptyString => EmptyString
  | String c tl => json_escape_char c ++ json_escape tl
  end.

Definition json_string (s : string) : string :=
  String dquote (json_escape s ++ String dquote "").

Fixpoint json_dumps (v : value) : string :=
  match v with
  | VNone => "null"
  | VBool true => "true"
  | VBool false => "false"
  | VInt z => str_int z
  | VStr s => json_string s
  | VList l => "[" ++ String.concat "," (map json_dumps l) ++ "]"
  | VDict d =>
      "{" ++ String.concat ","
               (map (fun kv => json_string (fst kv) ++ ":" ++ json_dumps (snd kv)) d)
          ++ "}"
  end.

Definition safe_json (obj : value) : string := json_dumps obj.

(** The dictionary [normalize_items] returns, as a value. *)
Definition items_value (items_by_syntax : list (string * list value)) : value :=
  VDict (map (fun kl => (fst kl, VList (snd kl))) items_by_syntax).

(** ** Rows and the per-URL orchestrator *)

(** The [item_index] column holds an integer in a flat row and the empty
    string in an error row. *)
Inductive cell : Type :=
| CInt : nat -> cell
| CStr : string -> cell.

Record FlatRow : Type := mk_row {
  row_url : string;
  row_syntax : string;
  row_item_index : cell;
  row_item_type : string;
  row_property : string;
  row_value : string
}.

Record PerURLSummary : Type := mk_summary {
  sum_url : string;
  structured_data_json : string
}.

(** What [extract_structured_data] returns. *)
Record extraction : Type := mk_extraction {
  res_url : string;
  res_json : string;
  res_flat : list FlatRow
}.

(** A call either returns or raises an [Exception]; the exception is kept as
    the text [str(e)] gives. *)
Inductive result (A : Type) : Type :=
| Ok : A -> result A
| Raise : string -> result A.
Arguments Ok {A} _.
Arguments Raise {A} _.

Definition bind {A B : Type} (r : result A) (k : A -> result B) : result B :=
  match r with
  | Ok a => k a
  | Raise e => Raise e
  end.

Notation "x <- r ;; k" := (bind r (fun x => k))
  (at level 61, r at next level, right associativity).

(** [enumerate(l)] *)
Fixpoint enumerate_from {A : Type} (i : nat) (l : list A) : list (nat * A) :=
  match l with
  | [] => []
  | x :: tl => (i, x) :: enumerate_from (S i) tl
  end.

Definition enumerate {A : Type} (l : list A) : list (nat * A) :=
  enumerate_from 0 l.

(** The innermost loop: every fragment of [tmp] becomes a row tagged with the
    URL, the syntax, the index and the type of its item. *)
Definition append_tagged (final_url syntax : string) (idx : nat)
  (item_type : string) (tmp : list fragment) (flat_rows : list FlatRow)
  : list FlatRow :=
  fold_left
    (fun flat_rows t =>
       (flat_rows ++ [ {| row_url := final_url;
                          row_syntax := syntax;
                          row_item_index := CInt idx;
                          row_item_type := item_type;
                          row_property := frag_property t;
                          row_value := frag_value t |} ])%list)
    tmp flat_rows.

Definition flatten_all (final_url : string)
  (items_by_syntax : list (string * list value)) : list FlatRow :=
  fold_left
    (fun flat_rows si =>
       fold_left
         (fun flat_rows ii =>
            let item_type := guess_item_type (snd ii) in
            let tmp := flatten_item "" (snd ii) [] in
            append_tagged final_url (fst si) (fst ii) item_type tmp flat_rows)
         (enumerate (snd si)) flat_rows)
    items_by_syntax [].

(** ** The text of the input box *)

(** The characters [str.strip] removes. *)
Definition is_space (c : ascii) : bool :=
  let n := N_of_ascii c in
  ((9 <=? n) && (n <=? 13) || (28 <=? n) && (n <=? 32)
   || (n =? 133) || (n =? 160))%N.

(** The characters [str.splitlines] breaks a line at, the carriage return
    apart. *)
Definition is_linebreak (c : ascii) : bool :=
  let n := N_of_ascii c in
  ((10 <=? n) && (n <=? 12) || (28 <=? n) && (n <=? 30) || (n =? 133))%N.

Fixpoint lstrip (s : string) : string :=
  match s with
  | EmptyString => EmptyString
  | String c tl => if is_space c then lstrip tl else s
  end.

Fixpoint rstrip (s : string) : string :=
  match s with
  | EmptyString => EmptyString
  | String c tl =>
      match rstrip tl with
      | EmptyString => if is_space c then EmptyString else String c EmptyString
      | r => String c r
      end
  end.

(** [s.strip()] *)
Definition strip (s : string) : string := rstrip (lstrip s).

(** [s.splitlines()]: [line] is the text read since the last break; a
    carriage return followed by a line feed is one break; the text after the
    last break is a line only when it is not empty. *)
Fixpoint splitlines_from (line : string) (s : string) : list string :=
  match s with
  | EmptyString => if str_truthy line then [line] else []
  | String c tl =>
      if Ascii.eqb c "013" then
        match tl with
        | String c' tl' =>
            if Ascii.eqb c' "010" then line :: splitlines_from "" tl'
            else line :: splitlines_from "" tl
        | EmptyString => line :: splitlines_from "" tl
        end
      else if is_linebreak c then line :: splitlines_from "" tl
      else splitlines_from (line ++ String c "") tl
  end.

Definition splitlines (s : string) : list string := splitlines_from "" s.

(** [[u.strip() for u in urls_input.splitlines() if u.strip()]] *)
Definition input_urls (urls_input : string) : list string :=
  map strip (filter (fun u => str_truthy (strip u)) (splitlines urls_input)).

(** The workbook offered for download: its two sheets. *)
Record workbook : Type := mk_workbook {
  per_url_json : list PerURLSummary;
  flat_properties : list FlatRow
}.

(** How a run ends: the error shown by [st.error] before [st.stop] halts the
    script, or the preview table and the download button. *)
Inductive outcome : Type :=
| Rejected : string -> outcome
| Completed : list FlatRow -> workbook -> outcome.

Section Orchestrator.

(** The collaborators: the HTTP fetch, the base-URL resolution of w3lib and
    the extraction of extruct.  Each returns or raises. *)
Variable fetch_html : string -> Z -> result (string * string).
Variable get_base_url : string -> string -> result string.
Variable extruct_extract : string -> string -> result (list (string * value)).

Definition extract_structured_data (url : string) (timeout : Z)
  : result extraction :=
  hf <- fetch_html url timeout ;;
  let html := fst hf in
  let final_url := snd hf in
  base_url <- get_base_url html final_url ;;
  extracted <- extruct_extract html base_url ;;
  let items_by_syntax := normalize_items extracted in
  let flat_rows := flatten_all final_url items_by_syntax in
  Ok {| res_url := final_url;
        res_json := safe_json (items_value items_by_syntax);
        res_flat := flat_rows |}.

(** The row the [except] branch appends. *)
Definition error_row (url e : string) : FlatRow :=
  {| row_url := url;
     row_syntax := "";
     row_item_index := CStr "";
     row_item_type := "";
     row_property := "ERROR";
     row_value := e |}.

(** One turn of the batch loop on the two accumulators
    [(all_rows, per_url_rows)].  The pause and the progress bar that follow
    the [try] statement touch neither. *)
Definition loop_body (timeout : Z)
  (acc : list FlatRow * list PerURLSummary) (url : string)
  : list FlatRow * list PerURLSummary :=
  let all_rows := fst acc in
  let per_url_rows := snd acc in
  match extract_structured_data url timeout with
  | Ok result =>
      ((all_rows ++ res_flat result)%list,
       (per_url_rows ++ [ {| sum_url := res_url result;
                             structured_data_json := res_json result |} ])%list)
  | Raise e => ((all_rows ++ [error_row url e])%list, per_url_rows)
  end.

Definition run_loop (timeout : Z) (urls : list string)
  (acc : list FlatRow * list PerURLSummary)
  : list FlatRow * list PerURLSummary :=
  fold_left (loop_body timeout) urls acc.

(** The body of [if run:]. *)
Definition run (urls_input : string) (timeout : Z) : outcome :=
  let urls := input_urls urls_input in
  match urls with
  | [] => Rejected "No URLs provided"
  | _ :: _ =>
      let acc := run_loop timeout urls ([], []) in
      let all_rows := fst acc in
      let per_url_rows := snd acc in
      Completed (firstn 50 all_rows)
                {| per_url_json := per_url_rows;
                   flat_properties := all_rows |}
  end.

End Orchestrator.

(** ** [json.loads]: the decoder of the standard library

    The program only writes JSON; the decoder is the one a reader of the
    summary column applies.  It follows the scanner of the [json] package
    ([scan_once], [scanstring], [JSONArray], [JSONObject], [decode]) with its
    default settings.  Recursion is bounded by [fuel]. *)

Inductive decoded (A : Type) : Type :=
| Decoded : A -> decoded A       (* the call returns *)
| DecodeError : decoded A        (* it raises JSONDecodeError *)
| Unmodelled : decoded A         (* a float literal, or a character above 255 *)
| OutOfFuel : decoded A.
Arguments Decoded {A} _.
Arguments DecodeError {A}.
Arguments Unmodelled {A}.
Arguments OutOfFuel {A}.

Definition decoded_bind {A B : Type} (r : decoded A) (k : A -> decoded B)
  : decoded B :=
  match r with
  | Decoded a => k a
  | DecodeError => DecodeError
  | Unmodelled => Unmodelled
  | OutOfFuel => OutOfFuel
  end.

Definition is_json_ws (c : ascii) : bool :=
  Ascii.eqb c " " || Ascii.eqb c "009" || Ascii.eqb c "010" || Ascii.eqb c "013".

Fixpoint skip_ws (s : string) : string :=
  match s with
  | EmptyString => EmptyString
  | String c tl => if is_json_ws c then skip_ws tl else s
  end.

Definition is_digit (c : ascii) : bool :=
  let n := N_of_ascii c in ((48 <=? n) && (n <=? 57))%N.

Definition hex_value (c : ascii) : option N :=
  let n := N_of_ascii c in
  if ((48 <=? n) && (n <=? 57))%N then Some (n - 48)%N
  else if ((97 <=? n) && (n <=? 102))%N then Some (n - 87)%N
  else if ((65 <=? n) && (n <=? 70))%N then Some (n - 55)%N
  else None.

Definition hex4_value (h1 h2 h3 h4 : ascii) : option N :=
  match hex_value h1, hex_value h2, hex_value h3, hex_value h4 with
  | Some a, Some b, Some c, Some d => Some (((a * 16 + b) * 16 + c) * 16 + d)%N
  | _, _, _, _ => None
  end.

(** The character a one-letter escape stands for. *)
Definition unescape (e : ascii) : option ascii :=
  if Ascii.eqb e dquote then Some dquote
  else if Ascii.eqb e backslash then Some backslash
  else if Ascii.eqb e "/" then Some "/"%char
  else if Ascii.eqb e "b" then Some "008"%char
  else if Ascii.eqb e "f" then Some "012"%char
  else if Ascii.eqb e "n" then Some "010"%char
  else if Ascii.eqb e "r" then Some "013"%char
  else if Ascii.eqb e "t" then Some "009"%char
  else None.

Definition prepend (c : ascii) (r : decoded (string * string))
  : decoded (string * string) :=
  decoded_bind r (fun p => Decoded (String c (fst p), snd p)).

(** [scanstring], strict: [s] starts after the opening quote; the result is
    the decoded text and what follows the closing quote. *)
Fixpoint scanstring (s : string) : decoded (string * string) :=
  match s with
  | EmptyString => DecodeError
  | String c rest =>
      if Ascii.eqb c dquote then Decoded (EmptyString, rest)
      else if Ascii.eqb c backslash then
        match rest with
        | EmptyString => DecodeError
        | String e rest1 =>
            if Ascii.eqb e "u" then
              match rest1 with
              | String h1 (String h2 (String h3 (String h4 rest2))) =>
                  match hex4_value h1 h2 h3 h4 with
                  | Some n =>
                      if (n <? 256)%N
                      then prepend (ascii_of_N n) (scanstring rest2)
                      else Unmodelled
                  | None => DecodeError
                  end
              | _ => DecodeError
              end
            else
              match unescape e with
              | Some ch => prepend ch (scanstring rest1)
              | None => DecodeError
              end
        end
      else if (N_of_ascii c <? 32)%N then DecodeError
      else prepend c (scanstring rest)
  end.

(** [strip_prefix p s]: what follows [p] in [s], when [s] starts with [p]. *)
Fixpoint strip_prefix (p s : string) : option string :=
  match p with
  | EmptyString => Some s
  | String a p' =>
      match s with
      | EmptyString => None
      | String b s' => if Ascii.eqb a b then strip_prefix p' s' else None
      end
  end.

Fixpoint span_digits (s : string) : string * string :=
  match s with
  | EmptyString => (EmptyString, EmptyString)
  | String c tl =>
      if is_digit c
      then let dr := span_digits tl in (String c (fst dr), snd dr)
      else (EmptyString, s)
  end.

(** The integer part of the number pattern: an optional minus sign, then a
    single zero or a digit from 1 to 9 followed by digits. *)
Definition match_integer (s : string) : option (string * string) :=
  let neg := match s with String c _ => Ascii.eqb c "-" | _ => false end in
  let s1 := match s with String c tl => if Ascii.eqb c "-" then tl else s | _ => s end in
  let sign := if neg then "-" else "" in
  match s1 with
  | EmptyString => None
  | String c tl =>
      if Ascii.eqb c "0" then Some (sign ++ "0", tl)
      else if is_digit c
      then let dr := span_digits tl in Some (sign ++ String c (fst dr), snd dr)
      else None
  end.

(** A fraction: a dot and a digit. *)
Definition match_frac (s : string) : bool :=
  match s with
  | String c (String d _) => Ascii.eqb c "." && is_digit d
  | _ => false
  end.

(** An exponent: [e] or [E], an optional sign and a digit. *)
Definition match_exp (s : string) : bool :=
  match s with
  | String e (String c tl) =>
      (Ascii.eqb e "e" || Ascii.eqb e "E")
      && (is_digit c
          || ((Ascii.eqb c "-" || Ascii.eqb c "+")
              && match tl with String d _ => is_digit d | _ => false end))
  | _ => false
  end.

(** [int(text)] *)
Definition parse_int (text : string) : option Z :=
  option_map Z.of_int (NilZero.int_of_string text).

(** The scalar cases of [scan_once] that follow the three containers. *)
Definition scan_atom (s : string) : decoded (value * string) :=
  match strip_prefix "null" s with
  | Some r => Decoded (VNone, r)
  | None =>
  match strip_prefix "true" s with
  | Some r => Decoded (VBool true, r)
  | None =>
  match strip_prefix "false" s with
  | Some r => Decoded (VBool false, r)
  | None =>
  match match_integer s with
  | Some (text, r) =>
      if match_frac r || match_exp r then Unmodelled
      else match parse_int text with
           | Some z => Decoded (VInt z, r)
           | None => DecodeError
           end
  | None =>
  match strip_prefix "NaN" s with
  | Some _ => Unmodelled
  | None =>
  match strip_prefix "Infinity" s with
  | Some _ => Unmodelled
  | None =>
  match strip_prefix "-Infinity" s with
  | Some _ => Unmodelled
  | None => DecodeError
  end end end end end end end.

(** [dict(pairs)] *)
Definition dict_of_pairs (pairs : list (string * value)) : list (string * value) :=
  fold_left (fun d kv => dict_set d (fst kv) (snd kv)) pairs [].

Fixpoint scan_once (fuel : nat) (s : string) {struct fuel}
  : decoded (value * string) :=
  match fuel with
  | O => OutOfFuel
  | S fuel' =>
      match s with
      | EmptyString => DecodeError
      | String c rest =>
          if Ascii.eqb c dquote then
            decoded_bind (scanstring rest)
                         (fun p => Decoded (VStr (fst p), snd p))
          else if Ascii.eqb c "{" then
            match skip_ws rest with
            | EmptyString => DecodeError
            | String c1 r1 =>
                if Ascii.eqb c1 "}" then Decoded (VDict [], r1)
                else if Ascii.eqb c1 dquote then object_items fuel' r1 []
                else DecodeError
            end
          else if Ascii.eqb c "[" then
            match skip_ws rest with
            | EmptyString => DecodeError
            | String c1 r1 =>
                if Ascii.eqb c1 "]" then Decoded (VList [], r1)
                else array_items fuel' (String c1 r1) []
            end
          else scan_atom s
      end
  end

(** The loop of [JSONArray]: [s] starts at the next element. *)
with array_items (fuel : nat) (s : string) (values : list value) {struct fuel}
  : decoded (value * string) :=
  match fuel with
  | O => OutOfFuel
  | S fuel' =>
      decoded_bind (scan_once fuel' s) (fun vs =>
        let values := (values ++ [fst vs])%list in
        match skip_ws (snd vs) with
        | EmptyString => DecodeError
        | String c r =>
            if Ascii.eqb c "]" then Decoded (VList values, r)
            else if Ascii.eqb c "," then array_items fuel' (skip_ws r) values
            else DecodeError
        end)
  end

(** The loop of [JSONObject]: [s] starts after the opening quote of the next
    key. *)
with object_items (fuel : nat) (s : string) (pairs : list (string * value))
  {struct fuel} : decoded (value * string) :=
  match fuel with
  | O => OutOfFuel
  | S fuel' =>
      decoded_bind (scanstring s) (fun ks =>
        match skip_ws (snd ks) with
        | EmptyString => DecodeError
        | String c r =>
            if Ascii.eqb c ":" then
              decoded_bind (scan_once fuel' (skip_ws r)) (fun vs =>
                let pairs := (pairs ++ [(fst ks, fst vs)])%list in
                match skip_ws (snd vs) with
                | EmptyString => DecodeError
                | String c r =>
                    if Ascii.eqb c "}" then Decoded (VDict (dict_of_pairs pairs), r)
                    else if Ascii.eqb c "," then
                      match skip_ws r with
                      | EmptyString => DecodeError
                      | String q r' =>
                          if Ascii.eqb q dquote then object_items fuel' r' pairs
                          else DecodeError
                      end
                    else DecodeError
                end)
            else DecodeError
        end)
  end.

(** [json.loads(s)]: one value, white space around it, nothing else. *)
Definition json_loads (s : string) : decoded value :=
  decoded_bind (scan_once (S (String.length s)) (skip_ws s)) (fun vs =>
    match skip_ws (snd vs) with
    | EmptyString => Decoded (fst vs)
    | String _ _ => DecodeError
    end).

(** ** Notions the properties are stated with *)

(** A dictionary has pairwise distinct keys, at every depth. *)
Fixpoint distinct (l : list string) : bool :=
  match l with
  | [] => true
  | k :: tl => negb (existsb (String.eqb k) tl) && distinct tl
  end.

Fixpoint wf_value (v : value) : bool :=
  match v with
  | VList l => forallb wf_value l
  | VDict d => distinct (map fst d) && forallb (fun kv => wf_value (snd kv)) d
  | _ => true
  end.

(** Where a leaf lives: the keys and indices on the way down from the root. *)
Inductive step : Type :=
| Key : string -> step
| Idx : nat -> step.

Abbreviation position := (list step) (only parsing).

(** The leaves of a value in document order (mapping entries in insertion
    order, sequence elements in index order), each with its position.  A leaf
    is a scalar; a container is never one, an empty container has none. *)
Fixpoint leaves (v : value) : list (position * value) :=
  match v with
  | VDict d =>
      (fix entries (d : list (string * value)) :=
         match d with
         | [] => []
         | (k, x) :: tl =>
             (map (fun pl => (Key k :: fst pl, snd pl)) (leaves x)
              ++ entries tl)%list
         end) d
  | VList l =>
      (fix elements (i : nat) (l : list value) :=
         match l with
         | [] => []
         | x :: tl =>
             (map (fun pl => (Idx i :: fst pl, snd pl)) (leaves x)
              ++ elements (S i) tl)%list
         end) 0%nat l
  | _ => [([], v)]
  end.

(** The two loops of [leaves], as functions of their own. *)
Fixpoint leaves_entries (d : list (string * value)) : list (position * value) :=
  match d with
  | [] => []
  | (k, x) :: tl =>
      (map (fun pl => (Key k :: fst pl, snd pl)) (leaves x) ++ leaves_entries tl)%list
  end.

Fixpoint leaves_elements (i : nat) (l : list value) : list (position * value) :=
  match l with
  | [] => []
  | x :: tl =>
      (map (fun pl => (Idx i :: fst pl, snd pl)) (leaves x)
       ++ leaves_elements (S i) tl)%list
  end.

(** The number of scalars in a value. *)
Fixpoint leaf_count (v : value) : nat :=
  match v with
  | VDict d => fold_right (fun kv n => (leaf_count (snd kv) + n)%nat) 0%nat d
  | VList l => fold_right (fun x n => (leaf_count x + n)%nat) 0%nat l
  | _ => 1%nat
  end.

(** One step down from the path [parent]. *)
Definition path_step (parent : string) (s : step) : string :=
  match s with
  | Key key => if String.eqb parent "" then key else parent ++ "." ++ key
  | Idx i => parent ++ "[" ++ str_nat i ++ "]"
  end.

(** The path of a position below the path [parent]. *)
Definition path_of (parent : string) (pos : position) : string :=
  fold_left path_step pos parent.

(** The text of a leaf: empty for null, the string form otherwise. *)
Definition leaf_text (v : value) : string :=
  match v with
  | VNone => ""
  | _ => py_str v
  end.

(** The fragment of a leaf below [parent]. *)
Definition leaf_fragment (parent : string) (pl : position * value) : fragment :=
  {| frag_property := path_of parent (fst pl); frag_value := leaf_text (snd pl) |}.

(** Every character of a string passes a test. *)
Fixpoint str_forall (f : ascii -> bool) (s : string) : bool :=
  match s with
  | EmptyString => true
  | String c tl => f c && str_forall f tl
  end.

(** A string that is empty or starts with a character failing a test: what
    may follow a run of characters passing it. *)
Definition ends_run (keep : ascii -> bool) (r : string) : bool :=
  match r with
  | EmptyString => true
  | String c _ => negb (keep c)
  end.

(** The two characters that open a step in a path. *)
Definition is_delimiter (c : ascii) : bool := Ascii.eqb c "." || Ascii.eqb c "[".

(** A key that cannot be mistaken for a piece of path syntax: not empty, no
    dot, no opening bracket. *)
Definition no_delimiter (s : string) : bool :=
  str_forall (fun c => negb (is_delimiter c)) s.

Definition plain_key (k : string) : bool := str_truthy k && no_delimiter k.

Fixpoint plain_keys (v : value) : bool :=
  match v with
  | VList l => forallb plain_keys l
  | VDict d => forallb (fun kv => plain_key (fst kv) && plain_keys (snd kv)) d
  | _ => true
  end.

(** The list a syntax ends up with, told from the raw value found under its
    name: the raw value when it is a list, the one-element list holding it
    when it is some other truthy value, the empty list when it is missing or
    falsy. *)
Definition expected_items (raw : option value) : list value :=
  match raw with
  | Some (VList l) => l
  | Some v => if truthy v then [v] else []
  | None => []
  end.

(** The field a type label is read from: the [@type] field when it is there
    and truthy, else the [type] field when that one is there and truthy. *)
Definition truthy_field (d : list (string * value)) (k : string) : option value :=
  match dict_lookup d k with
  | Some v => if truthy v then Some v else None
  | None => None
  end.

Definition type_field (d : list (string * value)) : option value :=
  match truthy_field d "@type" with
  | Some t => Some t
  | None => truthy_field d "type"
  end.

(** An item whose [@type] is the empty string and whose [type] is a name. *)
Definition item_empty_at_type : value :=
  VDict [("@type", VStr ""); ("type", VStr "Product")].

(** A line made of white space only. *)
Definition all_space (s : string) : bool := str_forall is_space s.

(** What a step adds to a path that is not empty, and what a whole position
    adds. *)
Definition step_suffix (s : step) : string :=
  match s with
  | Key k => "." ++ k
  | Idx i => "[" ++ str_nat i ++ "]"
  end.

Definition suffixes (pos : position) : string :=
  fold_right (fun s acc => step_suffix s ++ acc) "" pos.

Definition plain_step (s : step) : bool :=
  match s with
  | Key k => plain_key k
  | Idx _ => true
  end.

(** An item with a dot inside a key. *)
Definition item_dotted_key : value :=
  VDict [("a.b", VInt 1); ("a", VDict [("b", VInt 2)])].

(** What may follow a value inside a JSON text: nothing, a comma, or a
    closing bracket or brace. *)
Definition ends_value (rest : string) : bool :=
  match rest with
  | EmptyString => true
  | String c _ => Ascii.eqb c "," || Ascii.eqb c "]" || Ascii.eqb c "}"
  end.

(** A character a JSON value can start with, as far as the decoder needs to
    know: not white space, and not a closing bracket. *)
Definition starts_value (c : ascii) : bool :=
  negb (is_json_ws c) && negb (Ascii.eqb c "]").

(** A decimal number written without a leading zero. *)
Definition leading_nonzero (d : uint) : bool :=
  match d with
  | Nil | D0 _ => false
  | _ => true
  end.

(** Collaborators for worked examples: the fetch fails with [404] on the URL
    [bad] and answers every other URL with a page at that same URL; every
    page holds one JSON-LD item of type [X]. *)
Definition demo_fetch (url : string) (timeout : Z) : result (string * string) :=
  if String.eqb url "bad" then Raise "404" else Ok ("<html>", url).

Definition demo_base_url (html final_url : string) : result string :=
  Ok final_url.

Definition demo_extract (html base_url : string)
  : result (list (string * value)) :=
  Ok [("json-ld", VDict [("@type", VStr "X")])].

(** ** Notions for the orchestrator and the batch *)

(** The row a fragment becomes once tagged with its URL, syntax, item index
    and item type. *)
Definition tag_row (final_url syntax : string) (idx : nat) (item_type : string)
  (t : fragment) : FlatRow :=
  {| row_url := final_url;
     row_syntax := syntax;
     row_item_index := CInt idx;
     row_item_type := item_type;
     row_property := frag_property t;
     row_value := frag_value t |}.

(** The rows of one item, and of the items of one syntax. *)
Definition item_rows (final_url syntax : string) (ii : nat * value)
  : list FlatRow :=
  map (tag_row final_url syntax (fst ii) (guess_item_type (snd ii)))
      (flatten_item "" (snd ii) []).

Definition syntax_rows (final_url : string) (si : string * list value)
  : list FlatRow :=
  flat_map (item_rows final_url (fst si)) (enumerate (snd si)).

(** What one URL adds to the flat rows and to the summaries, told from the
    outcome of its processing. *)
Definition url_rows (url : string) (r : result extraction) : list FlatRow :=
  match r with
  | Ok res => res_flat res
  | Raise e => [error_row url e]
  end.

Definition url_summaries (r : result extraction) : list PerURLSummary :=
  match r with
  | Ok res => [ {| sum_url := res_url res; structured_data_json := res_json res |} ]
  | Raise _ => []
  end.

Definition succeeded {A : Type} (r : result A) : bool :=
  match r with Ok _ => true | Raise _ => false end.

(** A row whose index column holds text rather than a number. *)
Definition is_error_row (r : FlatRow) : bool :=
  match row_item_index r with
  | CStr _ => true
  | CInt _ => false
  end.

(** A URL as one types it: not empty, no white space anywhere. *)
Definition clean_url (u : string) : bool :=
  str_truthy u && str_forall (fun c => negb (is_space c)) u.

(** The line feed, and lines joined by line feeds. *)
Definition line_feed : string := String "010" "".

Definition join_lines (lines : list string) : string :=
  String.concat line_feed lines.

(** A character that is not a control character. *)
Definition not_control (c : ascii) : bool := (32 <=? N_of_ascii c)%N.

(** The raw extraction output a result set stands for. *)
Definition raw_of (items_by_syntax : list (string * list value))
  : list (string * value) :=
  map (fun kl => (fst kl, VList (snd kl))) items_by_syntax.

(** * Properties *)

(** ** Induction on values *)

Lemma value_ind' (P : value -> Prop) :
  P VNone ->
  (forall b, P (VBool b)) ->
  (forall z, P (VInt z)) ->
  (forall s, P (VStr s)) ->
  (forall l, Forall P l -> P (VList l)) ->
  (forall d, Forall (fun kv => P (snd kv)) d -> P (VDict d)) ->
  forall v, P v.
Proof.
  intros HN HB HI HS HL HD.
  fix IH 1.
  intros [ | b | z | s | l | d ].
  - exact HN.
  - apply HB.
  - apply HI.
  - apply HS.
  - apply HL.
    revert l. fix IHl 1. intros [ | x tl ].
    + constructor.
    + constructor; [ apply IH | apply IHl ].
  - apply HD.
    revert d. fix IHd 1. intros [ | [k x] tl ].
    + constructor.
    + constructor; [ apply IH | apply IHd ].
Qed.

(** ** The flattener *)

Lemma flatten_item_dict prefix d rows :
  flatten_item prefix (VDict d) rows = flatten_dict prefix d rows.
Proof.
  revert rows. induction d as [ | [k x] tl IH ]; intros rows.
  - reflexivity.
  - simpl. rewrite <- IH. reflexivity.
Qed.

Lemma flatten_item_list prefix l rows :
  flatten_item prefix (VList l) rows = flatten_list prefix 0 l rows.
Proof.
  simpl. generalize 0%nat. revert rows.
  induction l as [ | x tl IH ]; intros rows i.
  - reflexivity.
  - simpl. rewrite IH. reflexivity.
Qed.

Lemma leaves_dict d : leaves (VDict d) = leaves_entries d.
Proof.
  induction d as [ | [k x] tl IH ].
  - reflexivity.
  - simpl. simpl in IH. rewrite IH. reflexivity.
Qed.

Lemma leaves_list l : leaves (VList l) = leaves_elements 0 l.
Proof.
  simpl. generalize 0%nat.
  induction l as [ | x tl IH ]; intros i.
  - reflexivity.
  - simpl. rewrite IH. reflexivity.
Qed.

Lemma str_truthy_eqb s : str_truthy s = negb (String.eqb s "").
Proof. destruct s; reflexivity. Qed.

Lemma leaf_fragment_push parent st (ls : list (position * value)) :
  map (leaf_fragment parent) (map (fun pl => (st :: fst pl, snd pl)) ls)
  = map (leaf_fragment (path_step parent st)) ls.
Proof.
  rewrite map_map. apply map_ext. intros [pos x]. reflexivity.
Qed.

(** What a call appends: the fragments of the leaves of the value, in
    document order. *)
Lemma flatten_item_leaves v :
  forall prefix rows,
    flatten_item prefix v rows
    = (rows ++ map (leaf_fragment prefix) (leaves v))%list.
Proof.
  induction v as [ | b | z | s | l IHl | d IHd ] using value_ind';
    intros prefix rows; try reflexivity.
  - rewrite flatten_item_list, leaves_list. generalize 0%nat. revert rows.
    induction IHl as [ | x tl Hx _ IHtl ]; intros rows i; simpl.
    + now rewrite List.app_nil_r.
    + rewrite Hx, IHtl, map_app, leaf_fragment_push, <- List.app_assoc.
      reflexivity.
  - rewrite flatten_item_dict, leaves_dict. revert rows.
    induction IHd as [ | [k x] tl Hx _ IHtl ]; intros rows; simpl.
    + now rewrite List.app_nil_r.
    + simpl in Hx. rewrite Hx, IHtl, map_app, leaf_fragment_push, <- List.app_assoc.
      simpl. rewrite str_truthy_eqb. destruct (String.eqb prefix ""); reflexivity.
Qed.

Lemma leaves_length v : length (leaves v) = leaf_count v.
Proof.
  induction v as [ | b | z | s | l IHl | d IHd ] using value_ind';
    try reflexivity.
  - rewrite leaves_list.
    enough (H : forall i, length (leaves_elements i l) = leaf_count (VList l))
      by apply H.
    induction IHl as [ | x tl Hx _ IHtl ]; intros i; simpl.
    + reflexivity.
    + rewrite List.length_app, List.length_map, Hx, (IHtl (S i)). reflexivity.
  - rewrite leaves_dict.
    induction IHd as [ | [k x] tl Hx _ IHtl ]; simpl.
    + reflexivity.
    + simpl in Hx. rewrite List.length_app, List.length_map, Hx, IHtl. reflexivity.
Qed.

Lemma leaves_scalar v : Forall (fun pl => is_scalar (snd pl) = true) (leaves v).
Proof.
  induction v as [ | b | z | s | l IHl | d IHd ] using value_ind';
    try (repeat constructor).
  - rewrite leaves_list. generalize 0%nat.
    induction IHl as [ | x tl Hx _ IHtl ]; intros i; simpl.
    + constructor.
    + apply Forall_app. split; [ | apply IHtl ].
      apply Forall_map. exact Hx.
  - rewrite leaves_dict.
    induction IHd as [ | [k x] tl Hx _ IHtl ]; simpl.
    + constructor.
    + apply Forall_app. split; [ | apply IHtl ].
      apply Forall_map. exact Hx.
Qed.

(** C10: [flatten_item] only appends to [rows].  Whatever the prefix, the
    value and the rows already accumulated, the rows after the call are the
    rows before it, unchanged and in order, followed by the fragments of the
    value (the ones a call on an empty accumulator produces). *)
Theorem flatten_item_only_appends :
  forall (prefix : string) (v : value) (rows : list fragment),
    flatten_item prefix v rows = (rows ++ flatten_item prefix v [])%list
    /\ firstn (length rows) (flatten_item prefix v rows) = rows
    /\ skipn (length rows) (flatten_item prefix v rows) = flatten_item prefix v [].
Proof.
  intros prefix v rows.
  assert (E : flatten_item prefix v rows
              = (rows ++ flatten_item prefix v [])%list).
  { rewrite (flatten_item_leaves v prefix rows).
    rewrite (flatten_item_leaves v prefix []). reflexivity. }
  split; [ exact E | ]. rewrite E. split.
  - rewrite firstn_app, Nat.sub_diag, firstn_all. simpl.
    apply List.app_nil_r.
  - rewrite skipn_app, Nat.sub_diag, skipn_all. reflexivity.
Qed.

(** C1: [flatten_item] appends exactly one row per leaf scalar of the value
    and nothing else.  The number of rows grows by the number of scalars in
    the value; the appended rows are, in order, the fragments of the leaves,
    every one of which is a scalar (no mapping or sequence node gets a row);
    an empty sequence or an empty mapping appends nothing, under any prefix
    and so at any depth. *)
Theorem flatten_item_one_row_per_leaf :
  forall (prefix : string) (v : value) (rows : list fragment),
    length (flatten_item prefix v rows) = (length rows + leaf_count v)%nat
    /\ map frag_value (skipn (length rows) (flatten_item prefix v rows))
       = map (fun pl => leaf_text (snd pl)) (leaves v)
    /\ Forall (fun pl => is_scalar (snd pl) = true) (leaves v)
    /\ flatten_item prefix (VList []) rows = rows
    /\ flatten_item prefix (VDict []) rows = rows.
Proof.
  intros prefix v rows. rewrite flatten_item_leaves.
  repeat apply conj; try reflexivity.
  - rewrite List.length_app, List.length_map, leaves_length. reflexivity.
  - rewrite skipn_app, Nat.sub_diag, skipn_all. simpl.
    rewrite map_map. reflexivity.
  - apply leaves_scalar.
Qed.

(** C2: the path of every leaf is built by going down from the prefix, one
    step per mapping key ([parent.key], or [key] alone when the parent path
    is empty) and one step per sequence index ([parent[i]]), the leaves being
    visited in document order; flattening the value
    [{a: {b: [1, 2]}}] under the empty prefix gives the rows
    [a.b[0] -> 1] and [a.b[1] -> 2], in that order. *)
Theorem flatten_item_paths :
  forall (prefix : string) (v : value) (rows : list fragment),
    flatten_item prefix v rows
    = (rows ++ map (fun pl => {| frag_property := fold_left path_step (fst pl) prefix;
                                 frag_value := leaf_text (snd pl) |})
                   (leaves v))%list
    /\ (forall key, path_step prefix (Key key)
                    = if String.eqb prefix "" then key else prefix ++ "." ++ key)
    /\ (forall i, path_step prefix (Idx i) = prefix ++ "[" ++ str_nat i ++ "]")
    /\ flatten_item "" (VDict [("a", VDict [("b", VList [VInt 1; VInt 2])])]) []
       = [ {| frag_property := "a.b[0]"; frag_value := "1" |};
           {| frag_property := "a.b[1]"; frag_value := "2" |} ].
Proof.
  intros prefix v rows. repeat apply conj; intros; try reflexivity.
  apply flatten_item_leaves.
Qed.


(** ** The normaliser *)

(** C5: [normalize_items] returns a mapping with exactly the keys [json-ld],
    [microdata] and [rdfa], in that order; under each of them the raw value
    when it is a list, the list holding the raw value alone when it is there,
    truthy and not a list, and the empty list when it is missing or falsy.
    No other key of the raw mapping is kept.  A raw output with a single
    mapping under [json-ld] gives that mapping alone under [json-ld] and the
    empty list under the two other names. *)
Theorem normalize_items_three_syntaxes :
  forall extracted : list (string * value),
    normalize_items extracted
    = [ ("json-ld", expected_items (dict_lookup extracted "json-ld"));
        ("microdata", expected_items (dict_lookup extracted "microdata"));
        ("rdfa", expected_items (dict_lookup extracted "rdfa")) ]
    /\ map fst (normalize_items extracted) = ["json-ld"; "microdata"; "rdfa"]
    /\ normalize_items [("json-ld", VDict [("@type", VStr "X")])]
       = [ ("json-ld", [VDict [("@type", VStr "X")]]);
           ("microdata", []); ("rdfa", []) ].
Proof.
  intros extracted.
  assert (E : forall k,
             match py_or (dict_get extracted k) (VList []) with
             | VList l => l
             | _ => [py_or (dict_get extracted k) (VList [])]
             end = expected_items (dict_lookup extracted k)).
  { intros k. unfold py_or, dict_get, expected_items.
    destruct (dict_lookup extracted k) as [ [ | b | z | s | l | d ] | ];
      simpl; try reflexivity.
    - destruct b; reflexivity.
    - destruct (Z.eqb z 0); reflexivity.
    - destruct s; reflexivity.
    - destruct l; reflexivity.
    - destruct d; reflexivity. }
  assert (N : normalize_items extracted
              = [ ("json-ld", expected_items (dict_lookup extracted "json-ld"));
                  ("microdata", expected_items (dict_lookup extracted "microdata"));
                  ("rdfa", expected_items (dict_lookup extracted "rdfa")) ]).
  { unfold normalize_items, syntaxes. cbn [fold_left]. cbv zeta.
    rewrite !E. reflexivity. }
  repeat apply conj.
  - exact N.
  - rewrite N. reflexivity.
  - reflexivity.
Qed.

(** ** The classifier *)

Lemma py_or_type_field d :
  let t := py_or (dict_get d "@type") (dict_get d "type") in
  (truthy t = true /\ type_field d = Some t)
  \/ (truthy t = false /\ type_field d = None).
Proof.
  unfold py_or, dict_get, type_field, truthy_field.
  destruct (dict_lookup d "@type") as [ a | ];
    [ destruct (truthy a) eqn:Ha | ];
    (destruct (dict_lookup d "type") as [ b | ];
     [ destruct (truthy b) eqn:Hb | ]);
    cbn; rewrite ?Ha, ?Hb; auto.
Qed.

(** C4, as the code has it: the label of a mapping is read from its [@type]
    field when that field is there and truthy, else from its [type] field
    when that one is there and truthy.  A sequence gives the string forms of
    its elements joined by commas, in order, repeated names kept; any other
    value gives its string form; without such a field, and for an item that
    is not a mapping, the label is empty. *)
Theorem guess_item_type_label :
  forall item : value,
    guess_item_type item
    = match item with
      | VDict d =>
          match type_field d with
          | Some (VList l) => String.concat "," (map py_str l)
          | Some t => py_str t
          | None => ""
          end
      | _ => ""
      end
    /\ guess_item_type (VDict [("@type", VList [VStr "Product"; VStr "Offer"])])
       = "Product,Offer"
    /\ guess_item_type (VDict [("@type", VList [VStr "A"; VStr "A"])]) = "A,A"
    /\ guess_item_type (VDict []) = ""
    /\ guess_item_type (VStr "Product") = "".
Proof.
  intros item. repeat apply conj; try reflexivity.
  destruct item as [ | b | z | s | l | d ]; try reflexivity.
  unfold guess_item_type.
  destruct (py_or_type_field d) as [ [Ht E] | [Ht E] ]; rewrite E;
    simpl in Ht |- *;
    destruct (py_or (dict_get d "@type") (dict_get d "type"));
    simpl in Ht |- *; try rewrite Ht; try reflexivity; try discriminate.
  destruct l; [ reflexivity | discriminate ].
Qed.

(** C4 fails as it is written: in [item_empty_at_type] the [@type] field is
    present and is a scalar, the empty string, yet the label is not its
    string form but the one of the [type] field. *)
Lemma guess_item_type_skips_falsy_at_type :
  dict_lookup [("@type", VStr ""); ("type", VStr "Product")] "@type"
  = Some (VStr "")
  /\ is_scalar (VStr "") = true
  /\ guess_item_type item_empty_at_type = "Product"
  /\ guess_item_type item_empty_at_type <> py_str (VStr "").
Proof.
  repeat apply conj; try reflexivity. discriminate.
Qed.

(** ** Strings *)

Lemma str_app_assoc (a b c : string) : (a ++ b) ++ c = a ++ (b ++ c).
Proof. induction a as [ | x a IH ]; simpl; [ | rewrite IH ]; reflexivity. Qed.

Lemma str_app_nil_r (a : string) : a ++ "" = a.
Proof. induction a as [ | x a IH ]; simpl; [ | rewrite IH ]; reflexivity. Qed.

Lemma str_length_app (a b : string) :
  String.length (a ++ b) = (String.length a + String.length b)%nat.
Proof. induction a as [ | x a IH ]; simpl; [ | rewrite IH ]; reflexivity. Qed.

(** A run of characters passing a test, followed by something that cannot
    continue it, is cut in one way only. *)
Lemma run_split_unique (keep : ascii -> bool) :
  forall a1 a2 r1 r2 : string,
    str_forall keep a1 = true -> str_forall keep a2 = true ->
    ends_run keep r1 = true -> ends_run keep r2 = true ->
    a1 ++ r1 = a2 ++ r2 -> a1 = a2 /\ r1 = r2.
Proof.
  induction a1 as [ | c1 a1 IH ]; intros [ | c2 a2 ] r1 r2 K1 K2 E1 E2 H;
    simpl in *.
  - auto.
  - subst r1. simpl in E1. apply andb_true_iff in K2 as [K2 _].
    rewrite K2 in E1. discriminate.
  - subst r2. simpl in E2. apply andb_true_iff in K1 as [K1 _].
    rewrite K1 in E2. discriminate.
  - injection H as -> H.
    apply andb_true_iff in K1 as [_ K1]. apply andb_true_iff in K2 as [_ K2].
    destruct (IH a2 r1 r2 K1 K2 E1 E2 H) as [-> ->]. auto.
Qed.

(** ** Decimal digits *)

Lemma string_of_uint_digits d :
  str_forall is_digit (NilEmpty.string_of_uint d) = true.
Proof. induction d; simpl; auto. Qed.

Lemma str_nat_digits n : str_forall is_digit (str_nat n) = true.
Proof.
  unfold str_nat, str_int.
  destruct (Z.of_nat n) as [ | p | p ] eqn:E; try reflexivity.
  - simpl. unfold NilZero.string_of_uint.
    destruct (Pos.to_uint p) eqn:Ep; try reflexivity;
      rewrite <- Ep; apply string_of_uint_digits.
  - lia.
Qed.

Lemma parse_int_str_int z : parse_int (str_int z) = Some z.
Proof.
  unfold parse_int, str_int. rewrite NilZero.isi.
  - simpl. now rewrite DecimalZ.of_to.
  - destruct z; simpl; try discriminate.
    intros [= H]. now apply DecimalPos.Unsigned.to_uint_nonnil in H.
  - destruct z; simpl; try discriminate.
    intros [= H]. now apply DecimalPos.Unsigned.to_uint_nonnil in H.
Qed.

Lemma str_int_inj a b : str_int a = str_int b -> a = b.
Proof.
  intros H. pose proof (parse_int_str_int a) as Ha.
  rewrite H, parse_int_str_int in Ha. now injection Ha.
Qed.

Lemma str_nat_inj n m : str_nat n = str_nat m -> n = m.
Proof. intros H. apply str_int_inj in H. lia. Qed.

(** ** Paths *)

Lemma path_step_nonempty parent s :
  parent <> "" -> path_step parent s = parent ++ step_suffix s.
Proof.
  intros H. destruct s as [ k | i ]; simpl; [ | reflexivity ].
  destruct (String.eqb_spec parent ""); [ contradiction | reflexivity ].
Qed.

Lemma str_app_nonempty a b : a <> "" -> a ++ b <> "".
Proof. destruct a; [ contradiction | discriminate ]. Qed.

Lemma path_of_nonempty pos :
  forall parent, parent <> "" -> path_of parent pos = parent ++ suffixes pos.
Proof.
  unfold path_of. induction pos as [ | s tl IH ]; intros parent H; simpl.
  - now rewrite str_app_nil_r.
  - rewrite path_step_nonempty by exact H.
    rewrite IH by (now apply str_app_nonempty).
    apply str_app_assoc.
Qed.

Lemma suffixes_ends_run pos :
  ends_run (fun c => negb (is_delimiter c)) (suffixes pos) = true.
Proof. destruct pos as [ | [ k | i ] tl ]; reflexivity. Qed.

Lemma index_split i1 i2 r1 r2 :
  str_nat i1 ++ String "]" r1 = str_nat i2 ++ String "]" r2 ->
  i1 = i2 /\ r1 = r2.
Proof.
  intros H.
  apply (run_split_unique is_digit) in H;
    try apply str_nat_digits; try reflexivity.
  destruct H as [Hi Hr]. apply str_nat_inj in Hi. injection Hr as Hr. auto.
Qed.

Lemma suffixes_inj :
  forall p1 p2 : position,
    forallb plain_step p1 = true -> forallb plain_step p2 = true ->
    suffixes p1 = suffixes p2 -> p1 = p2.
Proof.
  induction p1 as [ | s1 t1 IH ]; intros [ | s2 t2 ] P1 P2 H.
  - reflexivity.
  - destruct s2; discriminate.
  - destruct s1; discriminate.
  - simpl in P1, P2.
    apply andb_true_iff in P1 as [S1 P1]. apply andb_true_iff in P2 as [S2 P2].
    destruct s1 as [ k1 | i1 ], s2 as [ k2 | i2 ]; simpl in H;
      try discriminate.
    + injection H as H.
      apply andb_true_iff in S1 as [_ S1]. apply andb_true_iff in S2 as [_ S2].
      apply (run_split_unique (fun c => negb (is_delimiter c))) in H;
        try assumption; try apply suffixes_ends_run.
      destruct H as [-> H]. f_equal. now apply IH.
    + injection H as H. rewrite !str_app_assoc in H. simpl in H.
      apply index_split in H as [-> H]. f_equal. now apply IH.
Qed.

(** Below the empty path, positions made of plain keys and indices have
    pairwise distinct paths. *)
Lemma path_of_inj :
  forall p1 p2 : position,
    forallb plain_step p1 = true -> forallb plain_step p2 = true ->
    path_of "" p1 = path_of "" p2 -> p1 = p2.
Proof.
  assert (first_nonempty : forall s, plain_step s = true -> path_step "" s <> "").
  { intros [ k | i ] Hs; simpl; [ | discriminate ].
    apply andb_true_iff in Hs as [Hk _]. now destruct k. }
  assert (unfold_cons : forall s tl, plain_step s = true ->
            path_of "" (s :: tl) = path_step "" s ++ suffixes tl).
  { intros s tl Hs. change (path_of "" (s :: tl)) with (path_of (path_step "" s) tl).
    apply path_of_nonempty. now apply first_nonempty. }
  intros [ | s1 t1 ] [ | s2 t2 ] P1 P2 H.
  - reflexivity.
  - simpl in P2. apply andb_true_iff in P2 as [S2 P2].
    rewrite unfold_cons in H by exact S2. symmetry in H.
    apply str_app_nonempty with (b := suffixes t2) in H; [ contradiction | ].
    now apply first_nonempty.
  - simpl in P1. apply andb_true_iff in P1 as [S1 P1].
    rewrite unfold_cons in H by exact S1.
    apply str_app_nonempty with (b := suffixes t1) in H; [ contradiction | ].
    now apply first_nonempty.
  - simpl in P1, P2.
    apply andb_true_iff in P1 as [S1 P1]. apply andb_true_iff in P2 as [S2 P2].
    rewrite !unfold_cons in H by assumption.
    destruct s1 as [ k1 | i1 ], s2 as [ k2 | i2 ]; simpl in H.
    + apply andb_true_iff in S1 as [_ S1]. apply andb_true_iff in S2 as [_ S2].
      apply (run_split_unique (fun c => negb (is_delimiter c))) in H;
        try assumption; try apply suffixes_ends_run.
      destruct H as [-> H]. f_equal. now apply suffixes_inj.
    + apply andb_true_iff in S1 as [N1 S1].
      destruct k1 as [ | c k1 ]; [ discriminate | ].
      simpl in S1, H. injection H as -> _. discriminate.
    + apply andb_true_iff in S2 as [N2 S2].
      destruct k2 as [ | c k2 ]; [ discriminate | ].
      simpl in S2, H. injection H as <- _. discriminate.
    + injection H as H. rewrite !str_app_assoc in H. simpl in H.
      apply index_split in H as [-> H]. f_equal. now apply suffixes_inj.
Qed.

Lemma leaves_plain v :
  plain_keys v = true ->
  Forall (fun pl => forallb plain_step (fst pl) = true) (leaves v).
Proof.
  induction v as [ | b | z | s | l IHl | d IHd ] using value_ind';
    intros H; try (repeat constructor).
  - rewrite leaves_list. generalize 0%nat. simpl in H.
    induction IHl as [ | x tl Hx _ IHtl ]; intros i; simpl in *.
    + constructor.
    + apply andb_true_iff in H as [H1 H2].
      apply Forall_app. split; [ | now apply IHtl ].
      apply Forall_map. simpl. exact (Hx H1).
  - rewrite leaves_dict. simpl in H.
    induction IHd as [ | [k x] tl Hx _ IHtl ]; simpl in *.
    + constructor.
    + apply andb_true_iff in H as [H1 H2].
      apply andb_true_iff in H1 as [Hk H1].
      apply Forall_app. split; [ | now apply IHtl ].
      apply Forall_map. simpl.
      eapply Forall_impl; [ | exact (Hx H1) ].
      intros pl Hpl. now rewrite Hk.
Qed.

Lemma distinct_cons k tl :
  distinct (k :: tl) = true -> ~ In k tl /\ distinct tl = true.
Proof.
  simpl. intros H. apply andb_true_iff in H as [H1 H2]. split; [ | exact H2 ].
  intros Hin. apply negb_true_iff in H1.
  assert (E : existsb (String.eqb k) tl = true).
  { apply existsb_exists. exists k. split; [ exact Hin | apply String.eqb_refl ]. }
  congruence.
Qed.

Lemma leaves_entries_head d p x :
  In (p, x) (leaves_entries d) ->
  exists k rest, p = Key k :: rest /\ In k (map fst d).
Proof.
  induction d as [ | [k y] tl IH ]; simpl; intros H.
  - contradiction.
  - apply in_app_or in H as [H | H].
    + apply in_map_iff in H as [[q z] [E _]]. injection E as <- _.
      exists k, q. auto.
    + destruct (IH H) as [k' [rest [E Hin]]]. exists k', rest. auto.
Qed.

Lemma leaves_elements_head l : forall i p x,
  In (p, x) (leaves_elements i l) ->
  exists j rest, p = Idx j :: rest /\ (i <= j)%nat.
Proof.
  induction l as [ | y tl IH ]; simpl; intros i p x H.
  - contradiction.
  - apply in_app_or in H as [H | H].
    + apply in_map_iff in H as [[q z] [E _]]. injection E as <- _.
      exists i, q. auto.
    + destruct (IH _ _ _ H) as [j [rest [E Hj]]]. exists j, rest.
      split; [ exact E | lia ].
Qed.

Lemma NoDup_push (st : step) (ls : list (position * value)) :
  NoDup (map fst ls) ->
  NoDup (map fst (map (fun pl => (st :: fst pl, snd pl)) ls)).
Proof.
  intros H. rewrite map_map. simpl.
  rewrite <- (map_map fst (cons st)).
  apply NoDup_map_NoDup_ForallPairs; [ | exact H ].
  intros a b _ _ E. now injection E.
Qed.

(** In a value whose dictionaries have distinct keys, no two leaves share a
    position. *)
Lemma leaves_positions_distinct v :
  wf_value v = true -> NoDup (map fst (leaves v)).
Proof.
  induction v as [ | b | z | s | l IHl | d IHd ] using value_ind';
    intros H; try (repeat constructor; intros []).
  - rewrite leaves_list. generalize 0%nat. simpl in H.
    induction IHl as [ | x tl Hx _ IHtl ]; intros i; simpl in *.
    + constructor.
    + apply andb_true_iff in H as [H1 H2]. rewrite map_app.
      apply NoDup_app.
      * apply NoDup_push. exact (Hx H1).
      * now apply IHtl.
      * intros p Hp Hq.
        apply in_map_iff in Hp as [[p1 x1] [E1 Hp]]. simpl in E1. subst p1.
        apply in_map_iff in Hp as [[q z] [E _]]. injection E as <- _.
        apply in_map_iff in Hq as [[p2 x2] [E2 Hq]]. simpl in E2. subst p2.
        apply leaves_elements_head in Hq as [j [rest [E Hj]]].
        injection E as -> _. lia.
  - rewrite leaves_dict. simpl in H. apply andb_true_iff in H as [Hd H].
    induction IHd as [ | [k x] tl Hx _ IHtl ]; simpl in *.
    + constructor.
    + apply andb_true_iff in H as [H1 H2].
      apply distinct_cons in Hd as [Hk Hd]. rewrite map_app.
      apply NoDup_app.
      * apply NoDup_push. exact (Hx H1).
      * now apply IHtl.
      * intros p Hp Hq.
        apply in_map_iff in Hp as [[p1 x1] [E1 Hp]]. simpl in E1. subst p1.
        apply in_map_iff in Hp as [[q z] [E _]]. injection E as <- _.
        apply in_map_iff in Hq as [[p2 x2] [E2 Hq]]. simpl in E2. subst p2.
        apply leaves_entries_head in Hq as [k' [rest [E Hin]]].
        injection E as -> _. contradiction.
Qed.

(** C6, as the code has it: in an item whose keys, at every depth, are not
    empty and hold neither a dot nor an opening bracket, two leaves at
    different positions never get the same path: a path belongs to one
    position only, and the paths of the rows of the item are pairwise
    distinct. *)
Theorem plain_keys_paths_distinct :
  forall v : value,
    wf_value v = true ->
    plain_keys v = true ->
    (forall p1 x1 p2 x2,
        In (p1, x1) (leaves v) -> In (p2, x2) (leaves v) ->
        path_of "" p1 = path_of "" p2 -> p1 = p2)
    /\ NoDup (map frag_property (flatten_item "" v [])).
Proof.
  intros v Hwf Hplain.
  pose proof (leaves_plain v Hplain) as Hp. rewrite Forall_forall in Hp.
  assert (Inj : forall p1 x1 p2 x2,
             In (p1, x1) (leaves v) -> In (p2, x2) (leaves v) ->
             path_of "" p1 = path_of "" p2 -> p1 = p2).
  { intros p1 x1 p2 x2 H1 H2 E.
    apply path_of_inj; [ exact (Hp _ H1) | exact (Hp _ H2) | exact E ]. }
  split; [ exact Inj | ].
  rewrite flatten_item_leaves. simpl. rewrite map_map. simpl.
  rewrite <- (map_map fst (path_of "")).
  apply NoDup_map_NoDup_ForallPairs.
  - intros p1 p2 H1 H2 E.
    apply in_map_iff in H1 as [[q1 x1] [E1 H1]].
    apply in_map_iff in H2 as [[q2 x2] [E2 H2]].
    simpl in E1, E2. subst q1 q2. exact (Inj _ _ _ _ H1 H2 E).
  - now apply leaves_positions_distinct.
Qed.

Lemma plain_keys_paths_distinct_witness :
  wf_value (VDict [("a", VDict [("b", VList [VInt 1; VInt 2])]); ("c", VNone)])
  = true
  /\ plain_keys (VDict [("a", VDict [("b", VList [VInt 1; VInt 2])]); ("c", VNone)])
     = true
  /\ NoDup (map frag_property
               (flatten_item ""
                  (VDict [("a", VDict [("b", VList [VInt 1; VInt 2])]);
                          ("c", VNone)]) [])).
Proof.
  repeat apply conj; try reflexivity.
  apply (plain_keys_paths_distinct
           (VDict [("a", VDict [("b", VList [VInt 1; VInt 2])]); ("c", VNone)]));
    reflexivity.
Defined.

(** C6 fails as it is written: the two leaves of [item_dotted_key] sit at
    different positions, under the key [a.b] and under the key [b] of the
    mapping under [a], and both get the path [a.b]. *)
Lemma dotted_key_paths_collide :
  wf_value item_dotted_key = true
  /\ leaves item_dotted_key
     = [ ([Key "a.b"], VInt 1); ([Key "a"; Key "b"], VInt 2) ]
  /\ [Key "a.b"] <> [Key "a"; Key "b"]
  /\ path_of "" [Key "a.b"] = path_of "" [Key "a"; Key "b"]
  /\ flatten_item "" item_dotted_key []
     = [ {| frag_property := "a.b"; frag_value := "1" |};
         {| frag_property := "a.b"; frag_value := "2" |} ].
Proof.
  repeat apply conj; try reflexivity. discriminate.
Qed.

(** ** The batch loop *)

Section Batch.

Variable fetch_html : string -> Z -> result (string * string).
Variable get_base_url : string -> string -> result string.
Variable extruct_extract : string -> string -> result (list (string * value)).

Local Abbreviation extract :=
  (extract_structured_data fetch_html get_base_url extruct_extract).
Local Abbreviation loop := (run_loop fetch_html get_base_url extruct_extract).
Local Abbreviation body := (loop_body fetch_html get_base_url extruct_extract).

Lemma run_loop_app timeout l1 l2 acc :
  loop timeout (l1 ++ l2)%list acc = loop timeout l2 (loop timeout l1 acc).
Proof. apply fold_left_app. Qed.

(** The loop only appends to its two accumulators. *)
Lemma run_loop_acc timeout urls :
  forall rows sums,
    loop timeout urls (rows, sums)
    = ((rows ++ fst (loop timeout urls ([], [])))%list,
       (sums ++ snd (loop timeout urls ([], [])))%list).
Proof.
  induction urls as [ | u tl IH ]; intros rows sums.
  - simpl. now rewrite !List.app_nil_r.
  - unfold run_loop in *. cbn [fold_left].
    unfold loop_body at 2 4 6. cbn [fst snd].
    destruct (extract_structured_data _ _ _ u timeout) as [ r | e ].
    + rewrite (IH (rows ++ _)%list (sums ++ _)%list).
      rewrite (IH ([] ++ _)%list ([] ++ _)%list).
      cbn [fst snd]. now rewrite !List.app_nil_l, <- !List.app_assoc.
    + rewrite (IH (rows ++ _)%list sums).
      rewrite (IH ([] ++ _)%list []).
      cbn [fst snd]. now rewrite !List.app_nil_l, <- !List.app_assoc.
Qed.

(** C3: when processing a URL raises, the loop turns that one failure into
    one row and goes on.  The turn of the loop on the failing URL appends
    a single row to the flat rows (the URL as it was given, empty syntax,
    index and type, the property [ERROR] and the text of the error) and
    leaves the summaries alone; the whole batch yields the rows of the URLs
    before it, that row, then the rows of the URLs after it, and the
    summaries of the other URLs only, which is what the batch without the
    failing URL yields, the error row apart. *)
Theorem batch_isolation :
  forall (timeout : Z) (before after : list string) (url e : string)
         (all_rows : list FlatRow) (per_url_rows : list PerURLSummary),
    extract url timeout = Raise e ->
    let err := {| row_url := url; row_syntax := ""; row_item_index := CStr "";
                  row_item_type := ""; row_property := "ERROR";
                  row_value := e |} in
    body timeout (all_rows, per_url_rows) url
    = ((all_rows ++ [err])%list, per_url_rows)
    /\ loop timeout (before ++ url :: after)%list ([], [])
       = ((fst (loop timeout before ([], [])) ++ [err]
           ++ fst (loop timeout after ([], [])))%list,
          (snd (loop timeout before ([], []))
           ++ snd (loop timeout after ([], [])))%list)
    /\ loop timeout (before ++ after)%list ([], [])
       = ((fst (loop timeout before ([], []))
           ++ fst (loop timeout after ([], [])))%list,
          (snd (loop timeout before ([], []))
           ++ snd (loop timeout after ([], [])))%list).
Proof.
  intros timeout before after url e all_rows per_url_rows He err.
  assert (Hb : forall rows sums,
             body timeout (rows, sums) url = ((rows ++ [err])%list, sums)).
  { intros rows sums. unfold loop_body. rewrite He. reflexivity. }
  repeat apply conj.
  - apply Hb.
  - rewrite run_loop_app.
    destruct (loop timeout before ([], [])) as [rows1 sums1] eqn:E1.
    unfold run_loop at 1. cbn [fold_left]. rewrite Hb.
    fold (loop timeout after ((rows1 ++ [err])%list, sums1)).
    rewrite run_loop_acc. cbn [fst snd].
    now rewrite <- List.app_assoc.
  - rewrite run_loop_app.
    destruct (loop timeout before ([], [])) as [rows1 sums1] eqn:E1.
    rewrite run_loop_acc. reflexivity.
Qed.

Lemma lstrip_all_space s : all_space s = true -> lstrip s = "".
Proof.
  unfold all_space. induction s as [ | c tl IH ]; simpl; intros H.
  - reflexivity.
  - apply andb_true_iff in H as [Hc Htl]. rewrite Hc. now apply IH.
Qed.

Lemma strip_all_space s : all_space s = true -> strip s = "".
Proof.
  intros H. unfold strip. rewrite (lstrip_all_space s H). reflexivity.
Qed.

Lemma input_urls_blank urls_input :
  forallb all_space (splitlines urls_input) = true ->
  input_urls urls_input = [].
Proof.
  unfold input_urls. induction (splitlines urls_input) as [ | line tl IH ];
    simpl; intros H.
  - reflexivity.
  - apply andb_true_iff in H as [Hl Htl].
    rewrite (strip_all_space line Hl). simpl. now apply IH.
Qed.

(** C9: an input box that is empty, or whose lines hold white space only,
    leaves no URL to process, and the run stops at once with the error
    [No URLs provided]: the loop is not entered, so there are no flat rows,
    no summaries, no preview and no download. *)
Theorem blank_input_rejected :
  forall (urls_input : string) (timeout : Z),
    forallb all_space (splitlines urls_input) = true ->
    input_urls urls_input = []
    /\ run fetch_html get_base_url extruct_extract urls_input timeout
       = Rejected "No URLs provided".
Proof.
  intros urls_input timeout H.
  pose proof (input_urls_blank urls_input H) as E.
  split; [ exact E | ]. unfold run. rewrite E. reflexivity.
Qed.

End Batch.

Lemma batch_isolation_witness :
  extract_structured_data demo_fetch demo_base_url demo_extract "bad" 25
  = Raise "404"
  /\ fst (run_loop demo_fetch demo_base_url demo_extract 25 ["ok"; "bad"; "fine"]
                   ([], []))
     = [ mk_row "ok" "json-ld" (CInt 0) "X" "@type" "X";
         mk_row "bad" "" (CStr "") "" "ERROR" "404";
         mk_row "fine" "json-ld" (CInt 0) "X" "@type" "X" ]
  /\ map sum_url
         (snd (run_loop demo_fetch demo_base_url demo_extract 25
                        ["ok"; "bad"; "fine"] ([], [])))
     = ["ok"; "fine"].
Proof.
  pose proof (batch_isolation demo_fetch demo_base_url demo_extract 25
                ["ok"] ["fine"] "bad" "404" [] [] eq_refl) as [_ [H _]].
  change (["ok"] ++ ["bad"; "fine"])%list with ["ok"; "bad"; "fine"] in H.
  rewrite H. repeat apply conj; reflexivity.
Defined.

Lemma blank_input_rejected_witness :
  forallb all_space
          (splitlines (String " " (String "010" (String "009" (String "013" "")))))
  = true
  /\ run demo_fetch demo_base_url demo_extract
         (String " " (String "010" (String "009" (String "013" "")))) 25
     = Rejected "No URLs provided".
Proof.
  split; [ reflexivity | ].
  apply (blank_input_rejected demo_fetch demo_base_url demo_extract). reflexivity.
Defined.

(** ** The JSON round trip *)

Lemma scanstring_escape_char c tail :
  scanstring (json_escape_char c ++ tail) = prepend c (scanstring tail).
Proof.
  destruct c as [[] [] [] [] [] [] [] []]; reflexivity.
Qed.

Lemma scanstring_escape s rest :
  scanstring (json_escape s ++ String dquote rest) = Decoded (s, rest).
Proof.
  induction s as [ | c s IH ]; simpl.
  - reflexivity.
  - rewrite str_app_assoc, scanstring_escape_char, IH. reflexivity.
Qed.

Lemma is_digit_cases c :
  is_digit c = true ->
  (c = "0" \/ c = "1" \/ c = "2" \/ c = "3" \/ c = "4" \/ c = "5" \/ c = "6"
   \/ c = "7" \/ c = "8" \/ c = "9")%char.
Proof.
  destruct c as [[] [] [] [] [] [] [] []]; intros H;
    try discriminate H; tauto.
Qed.

Lemma span_digits_run ds rest :
  str_forall is_digit ds = true -> ends_run is_digit rest = true ->
  span_digits (ds ++ rest) = (ds, rest).
Proof.
  intros Hd Hr.
  induction ds as [ | c ds IH ];
    cbn [append span_digits str_forall ends_run] in *.
  - destruct rest as [ | c r ]; [ reflexivity | ].
    cbn [append span_digits str_forall ends_run] in *.
    apply negb_true_iff in Hr. now rewrite Hr.
  - apply andb_true_iff in Hd as [Hc Hd]. rewrite Hc, (IH Hd). reflexivity.
Qed.

Lemma unorm_shape d :
  unorm d = Decimal.zero \/ leading_nonzero (unorm d) = true.
Proof. induction d; simpl; auto. Qed.

Lemma pos_to_uint_leading p : leading_nonzero (Pos.to_uint p) = true.
Proof.
  assert (E : unorm (Pos.to_uint p) = Pos.to_uint p).
  { rewrite <- DecimalPos.Unsigned.to_of, DecimalPos.Unsigned.of_to.
    reflexivity. }
  destruct (unorm_shape (Pos.to_uint p)) as [H | H]; rewrite E in H.
  - now apply DecimalPos.Unsigned.to_uint_nonzero in H.
  - exact H.
Qed.

Lemma ends_value_not_digit rest :
  ends_value rest = true -> ends_run is_digit rest = true.
Proof.
  destruct rest as [ | c r ]; simpl; [ reflexivity | ].
  intros H. destruct (is_digit c) eqn:E; [ | reflexivity ].
  apply is_digit_cases in E.
  repeat (destruct E as [-> | E]; [ discriminate H | ]). subst c. discriminate H.
Qed.

Lemma ends_value_not_float rest :
  ends_value rest = true -> match_frac rest || match_exp rest = false.
Proof.
  destruct rest as [ | c r ]; simpl; [ reflexivity | ].
  intros H. apply orb_true_iff in H as [H | H];
    [ apply orb_true_iff in H as [H | H] | ];
    apply Ascii.eqb_eq in H; subst c; destruct r; reflexivity.
Qed.

(** The integer pattern reads back the digits [str] wrote. *)
Lemma match_integer_str_int z rest :
  ends_value rest = true ->
  match_integer (str_int z ++ rest) = Some (str_int z, rest).
Proof.
  intros Hr. apply ends_value_not_digit in Hr.
  assert (P : forall p sign,
             match_integer
               (sign ++ NilZero.string_of_uint (Pos.to_uint p) ++ rest)
             = Some (sign ++ NilZero.string_of_uint (Pos.to_uint p), rest)
             \/ (sign <> "" /\ sign <> "-")).
  { intros p sign. pose proof (pos_to_uint_leading p) as L.
    pose proof (string_of_uint_digits (Pos.to_uint p)) as D.
    unfold NilZero.string_of_uint.
    destruct sign as [ | m [ | ] ].
    - left. destruct (Pos.to_uint p) as [ | u | u | u | u | u | u | u | u | u | u ];
        try discriminate L; simpl in D |- *; unfold match_integer; simpl;
        rewrite (span_digits_run _ rest D Hr); reflexivity.
    - destruct (Ascii.eqb_spec m "-") as [-> | N].
      + left. destruct (Pos.to_uint p) as [ | u | u | u | u | u | u | u | u | u | u ];
          try discriminate L; simpl in D |- *; unfold match_integer; simpl;
          rewrite (span_digits_run _ rest D Hr); reflexivity.
      + right. split; [ discriminate | ]. intros [= E]. contradiction.
    - right. split; discriminate. }
  unfold str_int. destruct z as [ | p | p ]; simpl.
  - reflexivity.
  - destruct (P p "") as [H | [H _]]; [ exact H | contradiction ].
  - destruct (P p "-") as [H | [_ H]]; [ exact H | contradiction ].
Qed.

Lemma number_head c :
  is_digit c || Ascii.eqb c "-" = true ->
  Ascii.eqb c dquote = false /\ Ascii.eqb c "{" = false
  /\ Ascii.eqb c "[" = false /\ starts_value c = true
  /\ forall tl, strip_prefix "null" (String c tl) = None
                /\ strip_prefix "true" (String c tl) = None
                /\ strip_prefix "false" (String c tl) = None.
Proof.
  destruct c as [[] [] [] [] [] [] [] []]; intros H;
    try discriminate H; repeat apply conj; try reflexivity;
    intros tl; repeat apply conj; reflexivity.
Qed.

Lemma str_int_head z :
  exists c tl, str_int z = String c tl /\ is_digit c || Ascii.eqb c "-" = true.
Proof.
  unfold str_int. destruct z as [ | p | p ]; simpl.
  - exists "0"%char, "". auto.
  - pose proof (pos_to_uint_leading p) as L.
    unfold NilZero.string_of_uint.
    destruct (Pos.to_uint p); try discriminate L; simpl; eauto.
  - exists "-"%char. eauto.
Qed.

Lemma scan_atom_str_int z rest :
  ends_value rest = true ->
  scan_atom (str_int z ++ rest) = Decoded (VInt z, rest).
Proof.
  intros Hr.
  pose proof (match_integer_str_int z rest Hr) as M.
  pose proof (parse_int_str_int z) as P.
  destruct (str_int_head z) as [c [tl [E Hc]]]. rewrite E in *.
  destruct (number_head c Hc) as [_ [_ [_ [_ N]]]].
  destruct (N (tl ++ rest)) as [N1 [N2 N3]].
  cbn [append] in *. unfold scan_atom.
  rewrite N1, N2, N3, M, (ends_value_not_float rest Hr), P. reflexivity.
Qed.

(** The equations of the scanner. *)
Lemma scan_once_atom f c rest :
  Ascii.eqb c dquote = false -> Ascii.eqb c "{" = false ->
  Ascii.eqb c "[" = false ->
  scan_once (S f) (String c rest) = scan_atom (String c rest).
Proof. intros H1 H2 H3. cbn [scan_once]. now rewrite H1, H2, H3. Qed.

Lemma scan_once_string f rest :
  scan_once (S f) (String dquote rest)
  = decoded_bind (scanstring rest) (fun p => Decoded (VStr (fst p), snd p)).
Proof. reflexivity. Qed.

Lemma skip_ws_start c tl :
  starts_value c = true -> skip_ws (String c tl) = String c tl.
Proof.
  unfold starts_value. intros H. apply andb_true_iff in H as [H _].
  apply negb_true_iff in H. cbn [skip_ws]. now rewrite H.
Qed.

Lemma scan_once_array_empty f rest :
  scan_once (S f) (String "[" (String "]" rest)) = Decoded (VList [], rest).
Proof. reflexivity. Qed.

Lemma scan_once_array f c tl :
  starts_value c = true ->
  scan_once (S f) (String "[" (String c tl)) = array_items f (String c tl) [].
Proof.
  intros H. cbn [scan_once]. change (Ascii.eqb "[" dquote) with false.
  change (Ascii.eqb "[" "{") with false. change (Ascii.eqb "[" "[") with true.
  cbv iota. rewrite (skip_ws_start c tl H).
  unfold starts_value in H. apply andb_true_iff in H as [_ H].
  apply negb_true_iff in H. now rewrite H.
Qed.

Lemma scan_once_object_empty f rest :
  scan_once (S f) (String "{" (String "}" rest)) = Decoded (VDict [], rest).
Proof. reflexivity. Qed.

Lemma scan_once_object f tl :
  scan_once (S f) (String "{" (String dquote tl)) = object_items f tl [].
Proof. reflexivity. Qed.

Lemma array_items_step f s values :
  array_items (S f) s values
  = decoded_bind (scan_once f s) (fun vs =>
      match skip_ws (snd vs) with
      | EmptyString => DecodeError
      | String c r =>
          if Ascii.eqb c "]" then Decoded (VList (values ++ [fst vs]), r)
          else if Ascii.eqb c "," then array_items f (skip_ws r) (values ++ [fst vs])
          else DecodeError
      end).
Proof. reflexivity. Qed.

Lemma object_items_step f s pairs :
  object_items (S f) s pairs
  = decoded_bind (scanstring s) (fun ks =>
      match skip_ws (snd ks) with
      | EmptyString => DecodeError
      | String c r =>
          if Ascii.eqb c ":" then
            decoded_bind (scan_once f (skip_ws r)) (fun vs =>
              match skip_ws (snd vs) with
              | EmptyString => DecodeError
              | String c r =>
                  if Ascii.eqb c "}"
                  then Decoded (VDict (dict_of_pairs (pairs ++ [(fst ks, fst vs)])), r)
                  else if Ascii.eqb c "," then
                    match skip_ws r with
                    | EmptyString => DecodeError
                    | String q r' =>
                        if Ascii.eqb q dquote
                        then object_items f r' (pairs ++ [(fst ks, fst vs)])
                        else DecodeError
                    end
                  else DecodeError
              end)
          else DecodeError
      end).
Proof. reflexivity. Qed.

(** What [json_dumps] writes starts with a character that opens a value. *)
Lemma json_dumps_head v :
  exists c tl, json_dumps v = String c tl /\ starts_value c = true.
Proof.
  destruct v as [ | [ | ] | z | s | l | d ]; simpl;
    try (do 2 eexists; split; reflexivity).
  destruct (str_int_head z) as [c [tl [E Hc]]].
  exists c, tl. split; [ exact E | ]. apply (number_head c Hc).
Qed.

Lemma distinct_NoDup l : distinct l = true -> NoDup l.
Proof.
  induction l as [ | k tl IH ]; intros H.
  - constructor.
  - apply distinct_cons in H as [Hk Hd]. constructor; auto.
Qed.

Lemma dict_set_new {A : Type} (d : list (string * A)) k v :
  ~ In k (map fst d) -> dict_set d k v = (d ++ [(k, v)])%list.
Proof.
  induction d as [ | [k' v'] tl IH ]; simpl; intros H.
  - reflexivity.
  - destruct (String.eqb_spec k' k) as [-> | N].
    + exfalso. apply H. now left.
    + rewrite IH; [ reflexivity | ]. intros Hin. apply H. now right.
Qed.

(** Pairs with distinct keys make the dictionary that lists them. *)
Lemma dict_of_pairs_distinct d :
  distinct (map fst d) = true -> dict_of_pairs d = d.
Proof.
  intros H. apply distinct_NoDup in H. unfold dict_of_pairs.
  enough (G : forall acc,
             NoDup (map fst (acc ++ d)) ->
             fold_left (fun d kv => dict_set d (fst kv) (snd kv)) d acc
             = (acc ++ d)%list) by (apply (G []); exact H).
  clear H. induction d as [ | [k v] tl IH ]; intros acc H; simpl.
  - now rewrite List.app_nil_r.
  - rewrite dict_set_new.
    + rewrite IH; rewrite <- List.app_assoc; [ reflexivity | exact H ].
    + rewrite map_app in H. simpl in H. apply NoDup_remove_2 in H.
      intros Hin. apply H. apply in_or_app. now left.
Qed.

Lemma concat_dumps_head l :
  l <> [] ->
  exists c tl, String.concat "," (map json_dumps l) = String c tl
               /\ starts_value c = true.
Proof.
  destruct l as [ | x [ | y tl ] ]; intros H; [ contradiction | | ].
  - apply json_dumps_head.
  - destruct (json_dumps_head x) as [c [t [E Hc]]].
    change (String.concat "," (map json_dumps (x :: y :: tl)))
      with (json_dumps x ++ "," ++ String.concat "," (map json_dumps (y :: tl))).
    rewrite E. simpl. eauto.
Qed.

Lemma skip_ws_concat_dumps l tail :
  l <> [] ->
  skip_ws (String.concat "," (map json_dumps l) ++ tail)
  = String.concat "," (map json_dumps l) ++ tail.
Proof.
  intros H. destruct (concat_dumps_head l H) as [c [t [E Hc]]].
  rewrite E. cbn [append]. now apply skip_ws_start.
Qed.

Lemma skip_ws_dumps v tail :
  skip_ws (json_dumps v ++ tail) = json_dumps v ++ tail.
Proof.
  destruct (json_dumps_head v) as [c [t [E Hc]]].
  rewrite E. cbn [append]. now apply skip_ws_start.
Qed.

Lemma json_dumps_nonempty v : (1 <= String.length (json_dumps v))%nat.
Proof.
  destruct (json_dumps_head v) as [c [t [E _]]]. rewrite E. simpl. lia.
Qed.

(** The loop of the array scanner reads back the elements written between
    the brackets, given that it reads back each of them. *)
Lemma array_items_dumps l :
  Forall (fun x => forall fuel rest,
              ends_value rest = true ->
              (String.length (json_dumps x) <= fuel)%nat ->
              scan_once fuel (json_dumps x ++ rest) = Decoded (x, rest)) l ->
  forall f acc rest,
    l <> [] ->
    (String.length (String.concat "," (map json_dumps l)) < f)%nat ->
    array_items f (String.concat "," (map json_dumps l) ++ String "]" rest) acc
    = Decoded (VList (acc ++ l), rest).
Proof.
  induction 1 as [ | x tl Hx _ IH ]; intros f acc rest Hne Hlen;
    [ contradiction | ].
  destruct f as [ | f ]; [ lia | ].
  destruct tl as [ | y tl ].
  - cbn [map String.concat] in *.
    rewrite array_items_step, Hx by (reflexivity || lia). reflexivity.
  - change (String.concat "," (map json_dumps (x :: y :: tl)))
      with (json_dumps x ++ "," ++ String.concat "," (map json_dumps (y :: tl)))
      in *.
    rewrite !str_length_app in Hlen. cbn [String.length] in Hlen.
    rewrite !str_app_assoc. cbn [append].
    rewrite array_items_step, Hx by (reflexivity || lia).
    cbn [decoded_bind fst snd].
    rewrite skip_ws_start by reflexivity.
    change (Ascii.eqb "," "]") with false. change (Ascii.eqb "," ",") with true.
    cbv iota. rewrite skip_ws_concat_dumps by discriminate.
    rewrite IH by (discriminate || lia).
    now rewrite <- List.app_assoc.
Qed.

Lemma concat_entries_head (d : list (string * value)) :
  d <> [] ->
  exists T,
    String.concat ","
      (map (fun kv => json_string (fst kv) ++ ":" ++ json_dumps (snd kv)) d)
    = String dquote T.
Proof.
  destruct d as [ | [k v] [ | kv tl ] ]; intros H; [ contradiction | | ];
    cbn [map String.concat fst snd]; unfold json_string; cbn [append]; eauto.
Qed.

(** The loop of the object scanner reads back the entries written between
    the braces, given that it reads back each value. *)
Lemma object_items_dumps d :
  Forall (fun kv => forall fuel rest,
              ends_value rest = true ->
              (String.length (json_dumps (snd kv)) <= fuel)%nat ->
              scan_once fuel (json_dumps (snd kv) ++ rest)
              = Decoded (snd kv, rest)) d ->
  forall f pairs rest T,
    d <> [] ->
    String.concat ","
      (map (fun kv => json_string (fst kv) ++ ":" ++ json_dumps (snd kv)) d)
    = String dquote T ->
    (String.length T < f)%nat ->
    object_items f (T ++ String "}" rest) pairs
    = Decoded (VDict (dict_of_pairs (pairs ++ d)), rest).
Proof.
  induction 1 as [ | [k v] tl Hv _ IH ]; intros f pairs rest T Hne HT Hlen;
    [ contradiction | ].
  destruct f as [ | f ]; [ lia | ].
  cbn [fst snd] in Hv.
  destruct tl as [ | kv tl ].
  - cbn [map String.concat fst snd] in HT. unfold json_string in HT.
    cbn [append] in HT. injection HT as <-.
    rewrite !str_length_app in Hlen. cbn [String.length] in Hlen.
    rewrite !str_app_assoc. cbn [append].
    rewrite object_items_step, scanstring_escape.
    cbn [decoded_bind fst snd].
    rewrite skip_ws_start by reflexivity.
    change (Ascii.eqb ":" ":") with true. cbv iota.
    rewrite skip_ws_dumps, Hv by (reflexivity || lia). reflexivity.
  - destruct (concat_entries_head (kv :: tl)) as [T2 E2]; [ discriminate | ].
    change (String.concat ","
              (map (fun kv => json_string (fst kv) ++ ":" ++ json_dumps (snd kv))
                   ((k, v) :: kv :: tl)))
      with ((json_string k ++ ":" ++ json_dumps v) ++ ","
            ++ String.concat ","
                 (map (fun kv => json_string (fst kv) ++ ":" ++ json_dumps (snd kv))
                      (kv :: tl))) in HT.
    rewrite E2 in HT. unfold json_string in HT. cbn [append] in HT.
    injection HT as <-.
    rewrite ?str_length_app in Hlen. cbn [String.length] in Hlen.
    rewrite ?str_length_app in Hlen. cbn [String.length] in Hlen.
    rewrite !str_app_assoc. cbn [append].
    rewrite object_items_step, scanstring_escape.
    cbn [decoded_bind fst snd].
    rewrite skip_ws_start by reflexivity.
    change (Ascii.eqb ":" ":") with true. cbv iota.
    rewrite ?str_app_assoc. cbn [append].
    rewrite skip_ws_dumps, Hv by (reflexivity || lia).
    cbn [decoded_bind fst snd].
    rewrite skip_ws_start by reflexivity.
    change (Ascii.eqb "," "}") with false. change (Ascii.eqb "," ",") with true.
    cbv iota. rewrite skip_ws_start by reflexivity.
    change (Ascii.eqb dquote dquote) with true. cbv iota.
    rewrite (IH f (pairs ++ [(k, v)])%list rest T2) by (discriminate || assumption || lia).
    now rewrite <- List.app_assoc.
Qed.

Lemma Forall_forallb_mp {A : Type} (P : A -> Prop) (f : A -> bool) l :
  Forall (fun x => f x = true -> P x) l -> forallb f l = true -> Forall P l.
Proof.
  induction 1 as [ | x tl Hx _ IH ]; simpl; intros H.
  - constructor.
  - apply andb_true_iff in H as [H1 H2]. constructor; auto.
Qed.

(** The scanner reads back what [json_dumps] wrote, whatever follows it in
    the text, as soon as the fuel covers the length of the text written. *)
Lemma scan_once_dumps v :
  wf_value v = true ->
  forall fuel rest,
    ends_value rest = true ->
    (String.length (json_dumps v) <= fuel)%nat ->
    scan_once fuel (json_dumps v ++ rest) = Decoded (v, rest).
Proof.
  induction v as [ | b | z | s | l IHl | d IHd ] using value_ind';
    intros Hwf fuel rest Hr Hlen;
    (destruct fuel as [ | f ];
     [ match type of Hlen with
       | (String.length (json_dumps ?x) <= _)%nat =>
           pose proof (json_dumps_nonempty x); lia
       end | ]).
  - reflexivity.
  - destruct b; reflexivity.
  - cbn [json_dumps].
    destruct (str_int_head z) as [c [tl [E Hc]]].
    destruct (number_head c Hc) as [H1 [H2 [H3 _]]].
    pose proof (scan_atom_str_int z rest Hr) as A.
    rewrite E in *. cbn [append] in *.
    now rewrite scan_once_atom.
  - cbn [json_dumps]. unfold json_string. cbn [append].
    rewrite str_app_assoc. cbn [append].
    now rewrite scan_once_string, scanstring_escape.
  - cbn [wf_value] in Hwf.
    pose proof (Forall_forallb_mp _ _ _ IHl Hwf) as Q.
    destruct l as [ | x tl ]; [ reflexivity | ].
    change (json_dumps (VList (x :: tl)))
      with ("[" ++ String.concat "," (map json_dumps (x :: tl)) ++ "]") in *.
    cbn [append String.length] in *.
    rewrite str_length_app in Hlen. cbn [String.length] in Hlen.
    rewrite str_app_assoc. cbn [append].
    destruct (concat_dumps_head (x :: tl)) as [c [t [E Hc]]]; [ discriminate | ].
    rewrite E at 1. cbn [append]. rewrite scan_once_array by exact Hc.
    change (String c (t ++ String "]" rest)) with (String c t ++ String "]" rest).
    rewrite <- E.
    now rewrite (array_items_dumps _ Q) by (discriminate || lia).
  - cbn [wf_value] in Hwf. apply andb_true_iff in Hwf as [Hd Hwf].
    pose proof (Forall_forallb_mp
                  (fun kv => forall fuel rest,
                       ends_value rest = true ->
                       (String.length (json_dumps (snd kv)) <= fuel)%nat ->
                       scan_once fuel (json_dumps (snd kv) ++ rest)
                       = Decoded (snd kv, rest))
                  (fun kv => wf_value (snd kv)) d IHd Hwf) as Q.
    destruct d as [ | kv tl ]; [ reflexivity | ].
    change (json_dumps (VDict (kv :: tl)))
      with ("{" ++ String.concat ","
                     (map (fun kv => json_string (fst kv) ++ ":"
                                     ++ json_dumps (snd kv)) (kv :: tl))
                ++ "}") in *.
    destruct (concat_entries_head (kv :: tl)) as [T E]; [ discriminate | ].
    rewrite E in *. cbn [append String.length] in *.
    rewrite str_length_app in Hlen. cbn [String.length] in Hlen.
    rewrite str_app_assoc. cbn [append].
    rewrite scan_once_object.
    rewrite (object_items_dumps _ Q f [] rest T) by (discriminate || assumption || lia).
    cbn [app]. now rewrite dict_of_pairs_distinct.
Qed.

(** Every value with dictionaries of distinct keys comes back from the
    decoder as it went into the encoder. *)
Lemma json_loads_dumps v :
  wf_value v = true -> json_loads (json_dumps v) = Decoded v.
Proof.
  intros H. unfold json_loads.
  rewrite <- (str_app_nil_r (json_dumps v)) at 2.
  rewrite skip_ws_dumps, scan_once_dumps by (auto || reflexivity).
  reflexivity.
Qed.



(** * Further properties of the code *)

(** ** The flattener, continued *)

Lemma flatten_dict_app prefix d1 d2 rows :
  flatten_dict prefix (d1 ++ d2) rows
  = flatten_dict prefix d2 (flatten_dict prefix d1 rows).
Proof.
  revert rows. induction d1 as [ | [k x] tl IH ]; intros rows; simpl.
  - reflexivity.
  - apply IH.
Qed.

Lemma flatten_list_app prefix l1 l2 :
  forall i rows,
    flatten_list prefix i (l1 ++ l2) rows
    = flatten_list prefix (i + length l1) l2 (flatten_list prefix i l1 rows).
Proof.
  induction l1 as [ | x tl IH ]; intros i rows; simpl.
  - now rewrite Nat.add_0_r.
  - rewrite IH. now rewrite Nat.add_succ_r.
Qed.

(** X1: under a prefix that is not empty, every path the call produces is the
    prefix followed by what the position of the leaf adds (a dot and the key
    for each mapping, the bracketed index for each sequence); the prefix
    itself is never altered. *)
Theorem flatten_item_under_prefix :
  forall (prefix : string) (v : value) (rows : list fragment),
    prefix <> "" ->
    flatten_item prefix v rows
    = (rows ++ map (fun pl => {| frag_property := prefix ++ suffixes (fst pl);
                                 frag_value := leaf_text (snd pl) |})
                   (leaves v))%list.
Proof.
  intros prefix v rows H. rewrite flatten_item_leaves. f_equal.
  apply map_ext. intros [pos x]. unfold leaf_fragment. simpl.
  now rewrite path_of_nonempty.
Qed.

Lemma flatten_item_under_prefix_witness :
  "offers" <> ""
  /\ flatten_item "offers" (VList [VDict [("price", VInt 5)]; VStr "x"]) []
     = [ {| frag_property := "offers[0].price"; frag_value := "5" |};
         {| frag_property := "offers[1]"; frag_value := "x" |} ].
Proof.
  split; [ discriminate | ].
  rewrite (flatten_item_under_prefix "offers"); [ reflexivity | discriminate ].
Defined.

(** X2: flattening composes along a container.  A mapping that is the
    concatenation of two lists of entries is flattened by flattening the
    first list and then the second onto the rows so far; for a sequence the
    same holds, the second part being numbered from the length of the
    first. *)
Theorem flatten_item_concatenation :
  forall (prefix : string) (rows : list fragment),
    (forall d1 d2,
        flatten_item prefix (VDict (d1 ++ d2)) rows
        = flatten_item prefix (VDict d2) (flatten_item prefix (VDict d1) rows))
    /\ (forall l1 l2,
           flatten_item prefix (VList (l1 ++ l2)) rows
           = flatten_list prefix (length l1) l2
               (flatten_item prefix (VList l1) rows)).
Proof.
  intros prefix rows. split.
  - intros d1 d2. rewrite !flatten_item_dict. apply flatten_dict_app.
  - intros l1 l2. rewrite !flatten_item_list. apply flatten_list_app.
Qed.

Lemma leaves_entries_perm d1 d2 :
  Permutation d1 d2 -> Permutation (leaves_entries d1) (leaves_entries d2).
Proof.
  induction 1 as [ | [k x] l l' _ IH | [k x] [k' x'] l | l l' l'' _ IH1 _ IH2 ];
    simpl.
  - constructor.
  - now apply Permutation_app_head.
  - rewrite !List.app_assoc. apply Permutation_app_tail.
    apply Permutation_app_comm.
  - now transitivity (leaves_entries l').
Qed.

(** X3: the order of the entries of a mapping decides the order of its rows
    and nothing else: two mappings with the same entries in a different
    order give the same rows up to order. *)
Theorem flatten_item_entry_order :
  forall (prefix : string) (d1 d2 : list (string * value)),
    Permutation d1 d2 ->
    Permutation (flatten_item prefix (VDict d1) [])
                (flatten_item prefix (VDict d2) []).
Proof.
  intros prefix d1 d2 H. rewrite !flatten_item_leaves, !leaves_dict. simpl.
  apply Permutation_map. now apply leaves_entries_perm.
Qed.

Lemma flatten_item_entry_order_witness :
  Permutation [("a", VInt 1); ("b", VList [VNone])]
              [("b", VList [VNone]); ("a", VInt 1)]
  /\ Permutation
       (flatten_item "" (VDict [("a", VInt 1); ("b", VList [VNone])]) [])
       (flatten_item "" (VDict [("b", VList [VNone]); ("a", VInt 1)]) []).
Proof.
  split; [ apply perm_swap | ].
  apply (flatten_item_entry_order ""). apply perm_swap.
Defined.

(** X4: the prefix decides the paths only: the values of the rows of an item,
    and their number, are the same under any two prefixes. *)
Theorem flatten_item_values_any_prefix :
  forall (p q : string) (v : value),
    map frag_value (flatten_item p v []) = map frag_value (flatten_item q v [])
    /\ length (flatten_item p v []) = length (flatten_item q v []).
Proof.
  intros p q v. rewrite !flatten_item_leaves. simpl.
  rewrite !map_map, !List.length_map. split; reflexivity.
Qed.

(** ** The orchestrator *)

Lemma append_tagged_map final_url syntax idx item_type tmp :
  forall flat_rows,
    append_tagged final_url syntax idx item_type tmp flat_rows
    = (flat_rows ++ map (tag_row final_url syntax idx item_type) tmp)%list.
Proof.
  unfold append_tagged. induction tmp as [ | t tl IH ]; intros flat_rows; simpl.
  - now rewrite List.app_nil_r.
  - rewrite IH, <- List.app_assoc. reflexivity.
Qed.

Lemma fold_left_flat_map {A B : Type} (f : A -> list B) (l : list A) :
  forall acc, fold_left (fun acc x => (acc ++ f x)%list) l acc
              = (acc ++ flat_map f l)%list.
Proof.
  induction l as [ | x tl IH ]; intros acc; simpl.
  - now rewrite List.app_nil_r.
  - rewrite IH, <- List.app_assoc. reflexivity.
Qed.

Lemma fold_left_pointwise {A B : Type} (f g : A -> B -> A) :
  (forall a b, f a b = g a b) ->
  forall l a, fold_left f l a = fold_left g l a.
Proof.
  intros H. induction l as [ | x tl IH ]; intros a; simpl.
  - reflexivity.
  - now rewrite H, IH.
Qed.

Lemma flatten_all_flat_map final_url items_by_syntax :
  flatten_all final_url items_by_syntax
  = flat_map (syntax_rows final_url) items_by_syntax.
Proof.
  unfold flatten_all.
  rewrite <- (List.app_nil_l (flat_map (syntax_rows final_url) items_by_syntax)).
  rewrite <- fold_left_flat_map.
  apply fold_left_pointwise. intros flat_rows si. unfold syntax_rows.
  rewrite <- fold_left_flat_map.
  apply fold_left_pointwise. intros acc ii. apply append_tagged_map.
Qed.

Lemma enumerate_from_In {A : Type} (l : list A) :
  forall k i x,
    In (i, x) (enumerate_from k l)
    <-> (k <= i)%nat /\ nth_error l (i - k) = Some x.
Proof.
  induction l as [ | y tl IH ]; intros k i x; simpl.
  - split; [ contradiction | ]. intros [_ H]. now destruct (i - k)%nat.
  - rewrite IH. split.
    + intros [E | [Hk H]].
      * injection E as <- <-. rewrite Nat.sub_diag. auto.
      * split; [ lia | ].
        replace (i - k)%nat with (S (i - S k)) by lia. exact H.
    + intros [Hk H]. destruct (i - k)%nat as [ | n ] eqn:E.
      * left. injection H as <-. f_equal. lia.
      * right. split; [ lia | ].
        replace (i - S k)%nat with n by lia. exact H.
Qed.

Lemma enumerate_In {A : Type} (l : list A) i x :
  In (i, x) (enumerate l) <-> nth_error l i = Some x.
Proof.
  unfold enumerate. rewrite enumerate_from_In, Nat.sub_0_r.
  split; [ now intros [_ H] | intros H; split; [ lia | exact H ] ].
Qed.

Lemma enumerate_from_snd {A : Type} (l : list A) :
  forall k, map snd (enumerate_from k l) = l.
Proof.
  induction l as [ | y tl IH ]; intros k; simpl; [ | rewrite IH ]; reflexivity.
Qed.

Lemma flat_map_length_sum {A B : Type} (f : A -> list B) (l : list A) :
  length (flat_map f l) = list_sum (map (fun x => length (f x)) l).
Proof.
  induction l as [ | x tl IH ]; simpl.
  - reflexivity.
  - now rewrite List.length_app, IH.
Qed.

Lemma normalize_items_eq extracted :
  normalize_items extracted
  = [ ("json-ld", expected_items (dict_lookup extracted "json-ld"));
      ("microdata", expected_items (dict_lookup extracted "microdata"));
      ("rdfa", expected_items (dict_lookup extracted "rdfa")) ].
Proof.
  assert (E : forall k,
             match py_or (dict_get extracted k) (VList []) with
             | VList l => l
             | _ => [py_or (dict_get extracted k) (VList [])]
             end = expected_items (dict_lookup extracted k)).
  { intros k. unfold py_or, dict_get, expected_items.
    destruct (dict_lookup extracted k) as [ [ | b | z | s | l | d ] | ];
      simpl; try reflexivity.
    - destruct b; reflexivity.
    - destruct (Z.eqb z 0); reflexivity.
    - destruct s; reflexivity.
    - destruct l; reflexivity.
    - destruct d; reflexivity. }
  unfold normalize_items, syntaxes. cbn [fold_left]. cbv zeta.
  rewrite !E. reflexivity.
Qed.

(** X5: the flat rows of a page list the syntaxes in the order of the result
    set, under each syntax the items by index, and for each item the rows of
    its leaves in document order, every row tagged with the URL, the syntax,
    the index and the type label of its item.  For a normalised result set
    this is: all JSON-LD rows, then all microdata rows, then all RDFa
    rows. *)
Theorem flatten_all_order :
  forall (final_url : string) (items_by_syntax : list (string * list value)),
    flatten_all final_url items_by_syntax
    = flat_map
        (fun si =>
           flat_map
             (fun ii =>
                map (tag_row final_url (fst si) (fst ii)
                             (guess_item_type (snd ii)))
                    (flatten_item "" (snd ii) []))
             (enumerate (snd si)))
        items_by_syntax
    /\ forall extracted,
         flatten_all final_url (normalize_items extracted)
         = (syntax_rows final_url
              ("json-ld", expected_items (dict_lookup extracted "json-ld"))
            ++ syntax_rows final_url
                 ("microdata", expected_items (dict_lookup extracted "microdata"))
            ++ syntax_rows final_url
                 ("rdfa", expected_items (dict_lookup extracted "rdfa")))%list.
Proof.
  intros final_url items_by_syntax. split.
  - apply flatten_all_flat_map.
  - intros extracted. rewrite flatten_all_flat_map, normalize_items_eq.
    simpl. now rewrite List.app_nil_r.
Qed.

(** X6: every flat row of a page comes from one leaf of one item, and every
    leaf of every item gives a row: a row is in the flat rows exactly when it
    is the fragment of a leaf of the item found at its index in the list of
    its syntax, tagged with the URL, that syntax, that index and the type
    label of that item. *)
Theorem flatten_all_row_origin :
  forall (final_url : string) (items_by_syntax : list (string * list value))
         (r : FlatRow),
    In r (flatten_all final_url items_by_syntax)
    <-> exists syntax items idx item t,
          In (syntax, items) items_by_syntax
          /\ nth_error items idx = Some item
          /\ In t (flatten_item "" item [])
          /\ r = {| row_url := final_url;
                    row_syntax := syntax;
                    row_item_index := CInt idx;
                    row_item_type := guess_item_type item;
                    row_property := frag_property t;
                    row_value := frag_value t |}.
Proof.
  intros final_url items_by_syntax r. rewrite flatten_all_flat_map. split.
  - intros H. apply in_flat_map in H as [[syntax items] [Hs H]].
    apply in_flat_map in H as [[idx item] [Hi H]].
    apply in_map_iff in H as [t [E Ht]].
    apply enumerate_In in Hi.
    exists syntax, items, idx, item, t. auto.
  - intros [syntax [items [idx [item [t [Hs [Hi [Ht E]]]]]]]].
    apply in_flat_map. exists (syntax, items). split; [ exact Hs | ].
    apply in_flat_map. exists (idx, item). split; [ now apply enumerate_In | ].
    apply in_map_iff. exists t. auto.
Qed.

(** X7: the number of flat rows of a page is the number of scalars in its
    items, all syntaxes together; an item without any scalar (an empty
    mapping, say) has no row at all. *)
Theorem flatten_all_row_count :
  forall (final_url : string) (items_by_syntax : list (string * list value)),
    length (flatten_all final_url items_by_syntax)
    = list_sum (map (fun si => list_sum (map leaf_count (snd si)))
                    items_by_syntax).
Proof.
  intros final_url items_by_syntax.
  rewrite flatten_all_flat_map, flat_map_length_sum. f_equal.
  apply map_ext. intros [syntax items]. unfold syntax_rows. simpl.
  rewrite flat_map_length_sum. f_equal.
  rewrite <- (enumerate_from_snd items 0) at 2. rewrite map_map.
  apply map_ext. intros [idx item]. unfold item_rows. simpl.
  rewrite List.length_map.
  rewrite flatten_item_leaves. simpl. rewrite List.length_map.
  apply leaves_length.
Qed.

Lemma dict_lookup_In {A : Type} (d : list (string * A)) k v :
  dict_lookup d k = Some v -> exists k', In (k', v) d.
Proof.
  induction d as [ | [k' v'] tl IH ]; simpl; intros H.
  - discriminate.
  - destruct (String.eqb k' k).
    + injection H as <-. exists k'. now left.
    + destruct (IH H) as [k'' Hin]. exists k''. now right.
Qed.

Lemma expected_items_wf extracted k :
  forallb (fun kv => wf_value (snd kv)) extracted = true ->
  forallb wf_value (expected_items (dict_lookup extracted k)) = true.
Proof.
  intros H. unfold expected_items.
  destruct (dict_lookup extracted k) as [ v | ] eqn:E; [ | reflexivity ].
  apply dict_lookup_In in E as [k' Hin].
  rewrite forallb_forall in H. specialize (H _ Hin). simpl in H.
  destruct v as [ | b | z | s | l | d ]; simpl; try reflexivity.
  - destruct b; reflexivity.
  - destruct (negb (Z.eqb z 0)); reflexivity.
  - destruct s; reflexivity.
  - exact H.
  - destruct d; [ reflexivity | ]. simpl in H |- *. now rewrite H.
Qed.

Lemma normalize_items_wf extracted :
  forallb (fun kv => wf_value (snd kv)) extracted = true ->
  wf_value (items_value (normalize_items extracted)) = true.
Proof.
  intros H. rewrite normalize_items_eq. unfold items_value.
  cbn [map fst snd wf_value forallb distinct existsb].
  rewrite !expected_items_wf by exact H. reflexivity.
Qed.

Lemma flatten_all_not_error final_url items_by_syntax :
  Forall (fun r => row_url r = final_url /\ is_error_row r = false)
         (flatten_all final_url items_by_syntax).
Proof.
  apply Forall_forall. intros r H. rewrite flatten_all_flat_map in H.
  apply in_flat_map in H as [[syntax items] [_ H]].
  apply in_flat_map in H as [[idx item] [_ H]].
  apply in_map_iff in H as [t [<- _]]. split; reflexivity.
Qed.

Section OrchestratorFacts.

Variable fetch_html : string -> Z -> result (string * string).
Variable get_base_url : string -> string -> result string.
Variable extruct_extract : string -> string -> result (list (string * value)).

Local Abbreviation extract :=
  (extract_structured_data fetch_html get_base_url extruct_extract).
Local Abbreviation loop := (run_loop fetch_html get_base_url extruct_extract).



End OrchestratorFacts.


(** ** The batch loop, continued *)

Lemma filter_flat_map {A B : Type} (p : B -> bool) (f : A -> list B) l :
  filter p (flat_map f l) = flat_map (fun x => filter p (f x)) l.
Proof.
  induction l as [ | x tl IH ]; simpl.
  - reflexivity.
  - now rewrite filter_app, IH.
Qed.

Lemma filter_none {A : Type} (p : A -> bool) l :
  Forall (fun x => p x = false) l -> filter p l = [].
Proof.
  induction 1 as [ | x tl Hx _ IH ]; simpl; [ | rewrite Hx ]; auto.
Qed.

Section BatchFacts.

Variable fetch_html : string -> Z -> result (string * string).
Variable get_base_url : string -> string -> result string.
Variable extruct_extract : string -> string -> result (list (string * value)).

Local Abbreviation extract :=
  (extract_structured_data fetch_html get_base_url extruct_extract).
Local Abbreviation loop := (run_loop fetch_html get_base_url extruct_extract).

Lemma run_loop_flat_map timeout urls :
  forall acc,
    loop timeout urls acc
    = ((fst acc ++ flat_map (fun u => url_rows u (extract u timeout)) urls)%list,
       (snd acc ++ flat_map (fun u => url_summaries (extract u timeout)) urls)%list).
Proof.
  unfold run_loop. induction urls as [ | u tl IH ]; intros [rows sums]; simpl.
  - now rewrite !List.app_nil_r.
  - rewrite IH. unfold loop_body. simpl.
    destruct (extract_structured_data _ _ _ u timeout) as [ res | e ]; simpl;
      now rewrite <- !List.app_assoc.
Qed.

Lemma extract_rows_not_error url timeout res :
  extract url timeout = Ok res ->
  Forall (fun r => is_error_row r = false) (res_flat res).
Proof.
  unfold extract_structured_data, bind.
  destruct (fetch_html url timeout) as [ [html final_url] | ]; [ | discriminate ].
  cbn [fst snd].
  destruct (get_base_url html final_url) as [ base_url | ]; [ | discriminate ].
  destruct (extruct_extract html base_url) as [ extracted | ]; [ | discriminate ].
  intros [= <-]. cbn [res_flat].
  eapply Forall_impl; [ | apply flatten_all_not_error ].
  intros r [_ H]. exact H.
Qed.

(** X10: a batch is the concatenation, in input order, of what each URL
    contributes on its own: to the flat rows, the rows of its page or its
    one error row; to the summaries, its summary or nothing.  A URL typed
    twice contributes twice. *)
Theorem run_loop_contributions :
  forall (timeout : Z) (urls : list string),
    run_loop fetch_html get_base_url extruct_extract timeout urls ([], [])
    = (flat_map
         (fun u => match extract_structured_data fetch_html get_base_url
                           extruct_extract u timeout with
                   | Ok res => res_flat res
                   | Raise e => [ {| row_url := u; row_syntax := "";
                                     row_item_index := CStr "";
                                     row_item_type := "";
                                     row_property := "ERROR";
                                     row_value := e |} ]
                   end) urls,
       flat_map
         (fun u => match extract_structured_data fetch_html get_base_url
                           extruct_extract u timeout with
                   | Ok res => [ {| sum_url := res_url res;
                                    structured_data_json := res_json res |} ]
                   | Raise _ => []
                   end) urls).
Proof.
  intros timeout urls. rewrite run_loop_flat_map. reflexivity.
Qed.

(** X11: a batch accounts for every URL once: it holds one summary per URL
    that succeeded and one error row (a row with text in its index column)
    per URL that failed, so summaries and error rows together are as many as
    the URLs. *)
Theorem run_loop_accounting :
  forall (timeout : Z) (urls : list string),
    length (snd (loop timeout urls ([], [])))
    = length (filter (fun u => succeeded (extract u timeout)) urls)
    /\ length (filter is_error_row (fst (loop timeout urls ([], []))))
       = length (filter (fun u => negb (succeeded (extract u timeout))) urls)
    /\ (length (snd (loop timeout urls ([], [])))
        + length (filter is_error_row (fst (loop timeout urls ([], []))))
        = length urls)%nat.
Proof.
  intros timeout urls. rewrite run_loop_flat_map. cbn [fst snd]. rewrite ?List.app_nil_l.
  assert (S : forall l,
             length (flat_map (fun u => url_summaries (extract u timeout)) l)
             = length (filter (fun u => succeeded (extract u timeout)) l)).
  { induction l as [ | u tl IH ]; simpl; [ reflexivity | ].
    destruct (extract_structured_data _ _ _ u timeout); simpl; now rewrite IH. }
  assert (E : forall l,
             length (filter is_error_row
                       (flat_map (fun u => url_rows u (extract u timeout)) l))
             = length (filter (fun u => negb (succeeded (extract u timeout))) l)).
  { intros l. rewrite filter_flat_map.
    induction l as [ | u tl IH ]; simpl; [ reflexivity | ].
    destruct (extract_structured_data _ _ _ u timeout) as [ res | e ] eqn:Eu;
      simpl.
    - rewrite (filter_none _ _ (extract_rows_not_error u timeout res Eu)).
      exact IH.
    - now rewrite IH. }
  repeat apply conj; [ apply S | apply E | ].
  rewrite S, E.
  induction urls as [ | u tl IH ]; simpl; [ reflexivity | ].
  destruct (succeeded _); simpl; lia.
Qed.

(** X12: the loop only appends to its two accumulators: started on rows and
    summaries already there, it leaves them in front, unchanged, and puts
    after them what it produces when started empty. *)
Theorem run_loop_only_appends :
  forall (timeout : Z) (urls : list string)
         (all_rows : list FlatRow) (per_url_rows : list PerURLSummary),
    loop timeout urls (all_rows, per_url_rows)
    = ((all_rows ++ fst (loop timeout urls ([], [])))%list,
       (per_url_rows ++ snd (loop timeout urls ([], [])))%list)
    /\ firstn (length all_rows) (fst (loop timeout urls (all_rows, per_url_rows)))
       = all_rows
    /\ firstn (length per_url_rows)
              (snd (loop timeout urls (all_rows, per_url_rows)))
       = per_url_rows.
Proof.
  intros timeout urls all_rows per_url_rows.
  rewrite (run_loop_flat_map timeout urls (all_rows, per_url_rows)).
  rewrite (run_loop_flat_map timeout urls ([], [])). cbn [fst snd]. rewrite ?List.app_nil_l.
  repeat apply conj; try reflexivity;
    rewrite firstn_app, Nat.sub_diag, firstn_all; simpl;
    apply List.app_nil_r.
Qed.

(** X13: a row with text in its index column is always the error row of an
    input URL whose processing failed, and every such failure has its row:
    no row flattened from a page can pass for one, whatever the page
    holds. *)
Theorem run_loop_error_rows :
  forall (timeout : Z) (urls : list string) (r : FlatRow),
    (In r (fst (loop timeout urls ([], []))) /\ is_error_row r = true)
    <-> exists u e,
          In u urls /\ extract u timeout = Raise e
          /\ r = {| row_url := u; row_syntax := ""; row_item_index := CStr "";
                    row_item_type := ""; row_property := "ERROR";
                    row_value := e |}.
Proof.
  intros timeout urls r. rewrite run_loop_flat_map. cbn [fst snd]. rewrite ?List.app_nil_l. split.
  - intros [H Hr]. apply in_flat_map in H as [u [Hu H]].
    destruct (extract_structured_data _ _ _ u timeout) as [ res | e ] eqn:Eu;
      simpl in H.
    + pose proof (extract_rows_not_error u timeout res Eu) as N.
      rewrite Forall_forall in N. rewrite (N r H) in Hr. discriminate.
    + destruct H as [<- | []]. exists u, e. auto.
  - intros [u [e [Hu [Eu ->]]]]. split; [ | reflexivity ].
    apply in_flat_map. exists u. split; [ exact Hu | ].
    rewrite Eu. now left.
Qed.

End BatchFacts.

(** ** The input box *)

Lemma rstrip_empty r : rstrip r = "" -> all_space r = true.
Proof.
  unfold all_space. induction r as [ | c tl IH ]; simpl; intros H.
  - reflexivity.
  - destruct (rstrip tl) as [ | d r' ]; [ | discriminate ].
    destruct (is_space c); [ | discriminate ]. now rewrite IH.
Qed.

Lemma lstrip_all_space_inv s : all_space (lstrip s) = true -> all_space s = true.
Proof.
  unfold all_space. induction s as [ | c tl IH ]; simpl; intros H.
  - reflexivity.
  - destruct (is_space c) eqn:E.
    + now rewrite IH.
    + simpl in H. now rewrite E in H.
Qed.

Lemma strip_empty_iff s : strip s = "" <-> all_space s = true.
Proof.
  split; [ | apply strip_all_space ].
  intros H. apply lstrip_all_space_inv. now apply rstrip_empty.
Qed.

Lemma input_urls_nil_iff urls_input :
  input_urls urls_input = []
  <-> forallb all_space (splitlines urls_input) = true.
Proof.
  split; [ | apply input_urls_blank ].
  unfold input_urls. induction (splitlines urls_input) as [ | line tl IH ];
    simpl; intros H.
  - reflexivity.
  - destruct (strip line) as [ | c r ] eqn:E; simpl in H; [ | discriminate ].
    apply strip_empty_iff in E. rewrite E. now apply IH.
Qed.

Lemma rstrip_idem s : rstrip (rstrip s) = rstrip s.
Proof.
  induction s as [ | c tl IH ]; simpl.
  - reflexivity.
  - destruct (rstrip tl) as [ | d r ] eqn:E.
    + destruct (is_space c) eqn:Ec; simpl; [ reflexivity | now rewrite Ec ].
    + simpl in IH |- *. now rewrite IH.
Qed.

Lemma lstrip_head s :
  lstrip s = "" \/ exists c tl, lstrip s = String c tl /\ is_space c = false.
Proof.
  induction s as [ | c tl IH ]; simpl.
  - now left.
  - destruct (is_space c) eqn:E; [ exact IH | ]. right. eauto.
Qed.

Lemma rstrip_keeps_head c tl :
  is_space c = false -> exists r, rstrip (String c tl) = String c r.
Proof.
  intros H. simpl. destruct (rstrip tl); [ rewrite H | ]; eauto.
Qed.

Lemma strip_idem s : strip (strip s) = strip s.
Proof.
  unfold strip. destruct (lstrip_head s) as [E | [c [tl [E Hc]]]]; rewrite E.
  - reflexivity.
  - destruct (rstrip_keeps_head c tl Hc) as [r Er].
    assert (L : lstrip (rstrip (String c tl)) = rstrip (String c tl)).
    { rewrite Er. simpl. now rewrite Hc. }
    rewrite L. apply rstrip_idem.
Qed.

Lemma str_forall_app f a b :
  str_forall f (a ++ b) = str_forall f a && str_forall f b.
Proof.
  induction a as [ | c a IH ]; simpl; [ reflexivity | ].
  now rewrite IH, andb_assoc.
Qed.

Lemma str_forall_lstrip f s :
  str_forall f s = true -> str_forall f (lstrip s) = true.
Proof.
  induction s as [ | c tl IH ]; simpl; intros H; [ reflexivity | ].
  destruct (is_space c); [ | exact H ].
  apply andb_true_iff in H as [_ H]. now apply IH.
Qed.

Lemma str_forall_rstrip f s :
  str_forall f s = true -> str_forall f (rstrip s) = true.
Proof.
  induction s as [ | c tl IH ]; simpl; intros H; [ reflexivity | ].
  apply andb_true_iff in H as [Hc H]. specialize (IH H).
  destruct (rstrip tl) as [ | d r ].
  - destruct (is_space c); simpl; [ reflexivity | now rewrite Hc ].
  - simpl in IH |- *. now rewrite Hc, IH.
Qed.

Lemma splitlines_from_no_break n :
  forall s line,
    (String.length s <= n)%nat ->
    str_forall (fun c => negb (is_linebreak c || Ascii.eqb c "013")) line = true ->
    Forall (fun l => str_forall
                       (fun c => negb (is_linebreak c || Ascii.eqb c "013")) l
                     = true)
           (splitlines_from line s).
Proof.
  induction n as [ | n IH ]; intros s line Hn Hl.
  - destruct s; [ | simpl in Hn; lia ]. simpl.
    destruct (str_truthy line); repeat constructor; exact Hl.
  - destruct s as [ | c tl ].
    + simpl. destruct (str_truthy line); repeat constructor; exact Hl.
    + simpl in Hn. cbn [splitlines_from].
      destruct (Ascii.eqb c "013") eqn:Ec.
      * destruct tl as [ | c' tl' ].
        -- constructor; [ exact Hl | ]. apply IH; [ simpl; lia | reflexivity ].
        -- simpl in Hn. destruct (Ascii.eqb c' "010").
           ++ constructor; [ exact Hl | ]. apply IH; [ lia | reflexivity ].
           ++ constructor; [ exact Hl | ].
              apply IH; [ simpl; lia | reflexivity ].
      * destruct (is_linebreak c) eqn:Eb.
        -- constructor; [ exact Hl | ]. apply IH; [ lia | reflexivity ].
        -- apply IH; [ lia | ].
           rewrite str_forall_app, Hl. simpl. now rewrite Eb, Ec.
Qed.

Lemma not_space_not_break c :
  is_space c = false -> is_linebreak c || Ascii.eqb c "013" = false.
Proof.
  destruct c as [[] [] [] [] [] [] [] []]; intros H;
    try discriminate H; reflexivity.
Qed.

Lemma splitlines_from_clean u :
  str_forall (fun c => negb (is_space c)) u = true ->
  forall line rest,
    splitlines_from line (u ++ String "010" rest)
    = (line ++ u) :: splitlines_from "" rest.
Proof.
  induction u as [ | c u IH ]; intros H line rest.
  - simpl. now rewrite str_app_nil_r.
  - simpl in H. apply andb_true_iff in H as [Hc H].
    apply negb_true_iff in Hc. apply not_space_not_break in Hc.
    apply orb_false_iff in Hc as [Hb Hr].
    cbn [append splitlines_from]. rewrite Hr, Hb, (IH H).
    now rewrite str_app_assoc.
Qed.

Lemma splitlines_from_clean_end u :
  str_forall (fun c => negb (is_space c)) u = true ->
  forall line,
    splitlines_from line u
    = if str_truthy (line ++ u) then [line ++ u] else [].
Proof.
  induction u as [ | c u IH ]; intros H line.
  - simpl. now rewrite str_app_nil_r.
  - simpl in H. apply andb_true_iff in H as [Hc H].
    apply negb_true_iff in Hc. apply not_space_not_break in Hc.
    apply orb_false_iff in Hc as [Hb Hr].
    cbn [splitlines_from]. rewrite Hr, Hb, (IH H).
    now rewrite str_app_assoc.
Qed.

Lemma splitlines_join us :
  forallb clean_url us = true -> splitlines (join_lines us) = us.
Proof.
  unfold splitlines, join_lines.
  induction us as [ | x [ | y tl ] IH ]; intros H.
  - reflexivity.
  - simpl in H. rewrite andb_true_r in H.
    apply andb_true_iff in H as [Hx Hc].
    cbn [String.concat]. rewrite (splitlines_from_clean_end x Hc).
    simpl. now rewrite Hx.
  - change (forallb clean_url (x :: y :: tl))
      with (clean_url x && forallb clean_url (y :: tl)) in H.
    apply andb_true_iff in H as [Hx H].
    apply andb_true_iff in Hx as [_ Hc].
    change (String.concat line_feed (x :: y :: tl))
      with (x ++ String "010" (String.concat line_feed (y :: tl))).
    rewrite (splitlines_from_clean x Hc). simpl append. now rewrite IH.
Qed.

Lemma rstrip_no_space u :
  str_forall (fun c => negb (is_space c)) u = true -> rstrip u = u.
Proof.
  induction u as [ | c u IH ]; simpl; intros H; [ reflexivity | ].
  apply andb_true_iff in H as [Hc H]. apply negb_true_iff in Hc.
  rewrite (IH H). destruct u; [ now rewrite Hc | reflexivity ].
Qed.

Lemma strip_clean u : clean_url u = true -> strip u = u.
Proof.
  unfold clean_url, strip. intros H. apply andb_true_iff in H as [Hn Hc].
  assert (L : lstrip u = u).
  { destruct u as [ | c u ]; [ reflexivity | ]. simpl in Hc |- *.
    apply andb_true_iff in Hc as [Hc _]. apply negb_true_iff in Hc.
    now rewrite Hc. }
  rewrite L. now apply rstrip_no_space.
Qed.

(** X14: the URLs handed to the loop are never blank, carry no white space
    at either end (stripping one again changes nothing) and hold no line
    break. *)
Theorem input_urls_stripped :
  forall urls_input : string,
    Forall (fun u => str_truthy u = true
                     /\ strip u = u
                     /\ str_forall
                          (fun c => negb (is_linebreak c || Ascii.eqb c "013")) u
                        = true)
           (input_urls urls_input).
Proof.
  intros urls_input. unfold input_urls.
  pose proof (splitlines_from_no_break (String.length urls_input)
                urls_input "" (Nat.le_refl _) eq_refl) as B.
  fold (splitlines urls_input) in B.
  induction B as [ | line tl Hl _ IH ]; simpl.
  - constructor.
  - destruct (str_truthy (strip line)) eqn:E; [ | exact IH ].
    simpl. constructor; [ | exact IH ].
    repeat apply conj.
    + exact E.
    + apply strip_idem.
    + unfold strip. now apply str_forall_rstrip, str_forall_lstrip.
Qed.

(** X15: URLs typed one per line come out as they were typed: for URLs that
    are not empty and hold no white space, the text made of them joined by
    line feeds is split back into exactly these URLs, in order, repeated
    ones included. *)
Theorem input_urls_of_lines :
  forall urls : list string,
    forallb clean_url urls = true ->
    input_urls (join_lines urls) = urls.
Proof.
  intros urls H. unfold input_urls. rewrite (splitlines_join urls H).
  induction urls as [ | u tl IH ]; simpl.
  - reflexivity.
  - simpl in H. apply andb_true_iff in H as [Hu H].
    pose proof (strip_clean u Hu) as Es. rewrite Es.
    apply andb_true_iff in Hu as [Hn _]. rewrite Hn. simpl.
    now rewrite Es, IH.
Qed.

Lemma input_urls_of_lines_witness :
  forallb clean_url ["https://a.example/x"; "https://b.example"] = true
  /\ input_urls (join_lines ["https://a.example/x"; "https://b.example"])
     = ["https://a.example/x"; "https://b.example"].
Proof.
  split; [ reflexivity | ].
  apply (input_urls_of_lines ["https://a.example/x"; "https://b.example"]).
  reflexivity.
Defined.

Section RunFacts.

Variable fetch_html : string -> Z -> result (string * string).
Variable get_base_url : string -> string -> result string.
Variable extruct_extract : string -> string -> result (list (string * value)).

Local Abbreviation extract :=
  (extract_structured_data fetch_html get_base_url extruct_extract).
Local Abbreviation loop := (run_loop fetch_html get_base_url extruct_extract).
Local Abbreviation run_app := (run fetch_html get_base_url extruct_extract).



End RunFacts.


(** ** The JSON of the summary, continued *)

Lemma str_forall_impl (f g : ascii -> bool) s :
  (forall c, f c = true -> g c = true) ->
  str_forall f s = true -> str_forall g s = true.
Proof.
  intros H. induction s as [ | c tl IH ]; simpl; intros Hs; [ reflexivity | ].
  apply andb_true_iff in Hs as [Hc Hs]. now rewrite (H c Hc), IH.
Qed.

Lemma is_digit_not_control c : is_digit c = true -> not_control c = true.
Proof.
  intros H. apply is_digit_cases in H.
  repeat (destruct H as [-> | H]; [ reflexivity | ]). now subst c.
Qed.

Lemma str_int_not_control z : str_forall not_control (str_int z) = true.
Proof.
  assert (U : forall d, str_forall not_control (NilZero.string_of_uint d) = true).
  { intros d. unfold NilZero.string_of_uint.
    destruct d; try reflexivity;
      apply (str_forall_impl is_digit); try apply is_digit_not_control;
      apply (string_of_uint_digits (_ d)). }
  unfold str_int. destruct (Z.to_int z) as [ d | d ]; simpl.
  - apply U.
  - apply U.
Qed.

Lemma json_escape_char_not_control c :
  str_forall not_control (json_escape_char c) = true.
Proof. destruct c as [[] [] [] [] [] [] [] []]; reflexivity. Qed.

Lemma json_string_not_control s : str_forall not_control (json_string s) = true.
Proof.
  unfold json_string. cbn [str_forall]. rewrite str_forall_app.
  change (not_control dquote) with true. cbn [andb].
  rewrite andb_true_r.
  induction s as [ | c tl IH ]; simpl; [ reflexivity | ].
  now rewrite str_forall_app, json_escape_char_not_control, IH.
Qed.

Lemma str_forall_concat f sep l :
  str_forall f sep = true ->
  Forall (fun s => str_forall f s = true) l ->
  str_forall f (String.concat sep l) = true.
Proof.
  intros Hsep. induction 1 as [ | x tl Hx Htl IH ]; [ reflexivity | ].
  destruct tl as [ | y tl ]; [ exact Hx | ].
  change (String.concat sep (x :: y :: tl))
    with (x ++ sep ++ String.concat sep (y :: tl)).
  now rewrite !str_forall_app, Hx, Hsep, IH.
Qed.

Lemma json_dumps_not_control v : str_forall not_control (json_dumps v) = true.
Proof.
  induction v as [ | b | z | s | l IHl | d IHd ] using value_ind'.
  - reflexivity.
  - destruct b; reflexivity.
  - apply str_int_not_control.
  - apply json_string_not_control.
  - change (json_dumps (VList l))
      with ("[" ++ String.concat "," (map json_dumps l) ++ "]").
    rewrite !str_forall_app, str_forall_concat; [ reflexivity | reflexivity | ].
    now apply Forall_map.
  - change (json_dumps (VDict d))
      with ("{" ++ String.concat ","
                     (map (fun kv => json_string (fst kv) ++ ":"
                                     ++ json_dumps (snd kv)) d)
                ++ "}").
    rewrite !str_forall_app, str_forall_concat; [ reflexivity | reflexivity | ].
    apply Forall_map. eapply Forall_impl; [ | exact IHd ].
    intros [k x] H. cbn [fst snd] in H |- *.
    now rewrite !str_forall_app, json_string_not_control, H.
Qed.




(** ** The normaliser and the classifier, continued *)

(** X20: normalising is idempotent: a result set, taken as raw extraction
    output again, is normalised to itself. *)
Theorem normalize_items_idempotent :
  forall extracted : list (string * value),
    normalize_items (raw_of (normalize_items extracted))
    = normalize_items extracted.
Proof.
  intros extracted. rewrite (normalize_items_eq extracted).
  rewrite normalize_items_eq. reflexivity.
Qed.

Lemma dict_lookup_not_in {A : Type} (d : list (string * A)) k :
  ~ In k (map fst d) -> dict_lookup d k = None.
Proof.
  induction d as [ | [k' v] tl IH ]; simpl; intros H.
  - reflexivity.
  - destruct (String.eqb_spec k' k) as [-> | N].
    + exfalso. apply H. now left.
    + apply IH. intros Hin. apply H. now right.
Qed.

Lemma dict_lookup_perm {A : Type} (d1 d2 : list (string * A)) :
  Permutation d1 d2 -> NoDup (map fst d1) ->
  forall k, dict_lookup d1 k = dict_lookup d2 k.
Proof.
  induction 1 as [ | [k' v] l l' _ IH | [k1 v1] [k2 v2] l | l l' l'' P1 IH1 _ IH2 ];
    intros N k; simpl.
  - reflexivity.
  - inversion N; subst. now rewrite IH.
  - simpl in N. inversion N as [ | ? ? Hn _ ]; subst.
    destruct (String.eqb_spec k1 k) as [-> | N1];
      destruct (String.eqb_spec k2 k) as [-> | N2]; try reflexivity.
    exfalso. apply Hn. now left.
  - rewrite IH1 by exact N. apply IH2.
    eapply Permutation_NoDup; [ | exact N ]. now apply Permutation_map.
Qed.

(** X21: the type label of a mapping does not depend on the order of its
    entries: two mappings with the same entries, the keys being distinct,
    get the same label. *)
Theorem guess_item_type_entry_order :
  forall d1 d2 : list (string * value),
    Permutation d1 d2 ->
    distinct (map fst d1) = true ->
    guess_item_type (VDict d1) = guess_item_type (VDict d2).
Proof.
  intros d1 d2 P N. apply distinct_NoDup in N.
  unfold guess_item_type, dict_get.
  now rewrite !(dict_lookup_perm d1 d2 P N).
Qed.

Lemma guess_item_type_entry_order_witness :
  Permutation [("name", VStr "n"); ("@type", VStr "Product")]
              [("@type", VStr "Product"); ("name", VStr "n")]
  /\ distinct (map fst [("name", VStr "n"); ("@type", VStr "Product")]) = true
  /\ guess_item_type (VDict [("name", VStr "n"); ("@type", VStr "Product")])
     = guess_item_type (VDict [("@type", VStr "Product"); ("name", VStr "n")]).
Proof.
  split; [ apply perm_swap | ]. split; [ reflexivity | ].
  apply guess_item_type_entry_order; [ apply perm_swap | reflexivity ].
Defined.
